(** * KIEP analytics server: a shallow embedding of [mcp/kiep-analytics/server.py]

    The five tools of the server ([get_region_health], [compare_regions],
    [find_industry_cluster], [get_company_360], [predict_complex_risk]) are
    embedded as programs over the remote data API, and the properties of the
    analytics derivation layer are proved on them.

    Conventions of the embedding.
    - A Python [str] is a [string] holding its UTF-8 encoding; [len] counts
      code points, that is the bytes that are not continuation bytes.
    - A JSON number (Python [int] or [float]) is an exact rational [Q];
      Python compares [int] and [float] by numerical value.  Binary rounding
      of floats is not represented.
    - A fetched JSON object is a record of optional fields, one per key the
      server reads ([None] is an absent key), so that [d.get(k, default)] is
      [get field default].  Dictionaries the server builds and then mutates
      are [gmap string value], kept in an object store.
    - [await client.get(...)] is a node of a program tree; the remote API is
      the environment the tree is run against.  A response carries its
      status and the record its body decodes to; an answer whose body is
      not JSON is not represented.  [run] is the run in which every fetch
      is answered; [run_x] is the run in which a fetch may raise (a timeout
      or a transport failure), which no tool catches. *)

From Stdlib Require Import Ascii String QArith Qround Lqa.
From stdpp Require Import gmap strings list fin_maps sorting pretty.

Open Scope string_scope.
Open Scope Z_scope.

(** ** Numbers *)

(** [x < y] and [x >= y] on JSON numbers. *)
Definition Qltb (x y : Q) : bool := negb (Qle_bool y x).
Definition Qgeb (x y : Q) : bool := Qle_bool y x.

(** Truthiness of a number: [0] is falsy.  [x or y]. *)
Definition num_or (x y : Q) : Q := if Qeq_bool x 0 then y else x.

(** [a / b] on numbers; [None] is [ZeroDivisionError]. *)
Definition truediv (a b : Q) : option Q :=
  if Qeq_bool b 0 then None else Some (a / b)%Q.

(** Nearest integer, ties to the even one. *)
Definition round_half_even (q : Q) : Z :=
  let f := Qfloor q in
  let r := (q - inject_Z f)%Q in
  if Qltb r (1 # 2) then f
  else if Qltb (1 # 2) r then f + 1
  else if Z.even f then f else f + 1.

(** [round(x, 1)], on the exact rational.  The source rounds the binary
    float it computed, which agrees with this when the rate is exactly
    representable (as it is for a divisor of 1 and whole counts) and can
    differ in the last digit otherwise. *)
Definition round1 (x : Q) : Q :=
  Qred (inject_Z (round_half_even (x * 10)) / 10).

(** ** Strings *)

(** A UTF-8 continuation byte has the form [10xxxxxx]. *)
Definition is_continuation (c : ascii) : bool :=
  match c with Ascii _ _ _ _ _ _ b6 b7 => b7 && negb b6 end.

(** [len(s)]: the number of code points. *)
Fixpoint py_len (s : string) : nat :=
  match s with
  | EmptyString => 0%nat
  | String c s' => if is_continuation c then py_len s' else S (py_len s')
  end.

(** [s.replace(old, new)] for a one-character [old]. *)
Fixpoint replace_char (old : ascii) (new : string) (s : string) : string :=
  match s with
  | EmptyString => EmptyString
  | String c s' =>
      if Ascii.eqb c old then new ++ replace_char old new s'
      else String c (replace_char old new s')
  end.

Fixpoint starts_with (p s : string) : bool :=
  match p, s with
  | EmptyString, _ => true
  | String _ _, EmptyString => false
  | String a p', String b s' => Ascii.eqb a b && starts_with p' s'
  end.

(** [needle in hay]: substring test. *)
Fixpoint str_contains (needle hay : string) : bool :=
  starts_with needle hay ||
  match hay with
  | EmptyString => false
  | String _ hay' => str_contains needle hay'
  end.

(** ** Lists *)

(** [l[:n]]: a negative bound counts from the end. *)
Definition slice_to {A} (n : Z) (l : list A) : list A :=
  if 0 <=? n then take (Z.to_nat n) l
  else take (Z.to_nat (Z.of_nat (length l) + n)) l.

(** [sorted(l, key=key, reverse=True)] and [l.sort(key=key, reverse=True)]:
    a stable sort in descending key order.  The head of the list is placed
    in the sorted tail after the elements with a strictly greater key, so
    before every element with an equal key. *)
Section Sorting.
Context {A : Type} (key : A → Q).

Fixpoint insert_desc (x : A) (l : list A) : list A :=
  match l with
  | [] => [x]
  | y :: l' => if Qltb (key x) (key y) then y :: insert_desc x l'
               else x :: y :: l'
  end.

Fixpoint sorted_desc (l : list A) : list A :=
  match l with
  | [] => []
  | x :: l' => insert_desc x (sorted_desc l')
  end.

(** Descending order of the keys: [x] may stand before [y]. *)
Definition desc (x y : A) : Prop := (key y <= key x)%Q.

(** The order of a stable descending sort, [before] being the order of
    the input: [x] stands before [y] when its key is strictly greater, or
    when the keys are equal and [x] came first in the input. *)
Definition stable_order (before : A → A → Prop) (x y : A) : Prop :=
  (key y < key x)%Q ∨ ((key x == key y)%Q ∧ before x y).
End Sorting.

(** ** The remote data API *)

(** Opaque JSON carried through unchanged. *)
#[local] Unset Elimination Schemes.
Inductive json : Type :=
| JNull
| JNum (q : Q)
| JStr (s : string)
| JList (l : list json)
| JObj (fields : list (string * json)).
#[local] Set Elimination Schemes.

(** An entry of [top_industries].  The tool reads its [name] and [count];
    [ind_other] tells whether it holds any other key, which is all that the
    truthiness of the dictionary needs of them. *)
Record industry_entry : Type := IndustryEntry {
  ind_name : option string;
  ind_count : option Q;
  ind_other : bool }.

(** An entry holding nothing but the given [name] and [count]. *)
Definition Industry (name : option string) (count : option Q)
  : industry_entry := IndustryEntry name count false.

Record region : Type := Region {
  reg_code : option string;
  reg_name : option string;
  reg_province : option string;
  reg_company_count : option Q;
  reg_employee_count : option Q;
  reg_growth_rate : option Q;
  reg_health_score : option Q;
  reg_top_industries : option (list industry_entry) }.

Record health : Type := HealthMetrics {
  h_new_biz_rate : option Q;
  h_closure_rate : option Q;
  h_revenue_growth : option Q }.

Record company : Type := Company {
  co_name : option string;
  co_status : option string;
  co_industry_name : option string;
  co_address : option string;
  co_employee_count : option Q;
  co_employment_history : option (list json);
  co_financials : option (list json);
  co_procurement_count : option Q;
  co_procurement_amount : option Q;
  co_recent_procurement : option (list json);
  co_health_score : option Q;
  co_region_code : option string }.

Record complex : Type := Complex {
  cx_id : option string;
  cx_complex_code : option string;
  cx_name : option string;
  cx_tenant_count : option Q;
  cx_operating_count : option Q;
  cx_occupancy_rate : option Q;
  cx_employment : option Q }.

(** [d.get(key, default)] on an optional field. *)
Definition get {A} (field : option A) (dflt : A) : A := default dflt field.

(** The requests the server issues, indexed by the shape of the body. *)
Inductive request : Type → Type :=
| GetRegion (code : string) : request region
| GetHealth (code : string) : request health
| ListRegions (limit : Z) : request (list region)
| GetCompany (biz : string) : request company
| GetComplex (code : string) : request complex
| ListComplexes (province : option string) : request (list complex).

(** The path of a request, as the f-strings of the source build it. *)
Definition path {B} (rq : request B) : string :=
  match rq with
  | GetRegion code => "/api/regions/" ++ code
  | GetHealth code => "/api/health/" ++ code
  | ListRegions _ => "/api/regions"
  | GetCompany biz => "/api/companies/" ++ biz
  | GetComplex code => "/api/complexes/" ++ code
  | ListComplexes _ => "/api/complexes"
  end.

Record response (B : Type) : Type := Response {
  status_code : Z;
  body : B }.
Arguments Response {B} _ _.
Arguments status_code {B} _.
Arguments body {B} _.

(** An [async] tool: it returns, or awaits a response and goes on. *)
Inductive prog (A : Type) : Type :=
| Ret (a : A)
| Await {B : Type} (rq : request B) (k : response B → prog A).
Arguments Ret {A} _.
Arguments Await {A B} _ _.

Notation "'await' x ← rq ; k" := (Await rq (λ x, k))
  (at level 10, x binder, rq at level 100, k at level 200,
   format "'[v' 'await'  x  ←  rq ; '/' k ']'").

(** Sequencing: run [p], then [f] on what it returns. *)
Fixpoint bind {A B} (p : prog A) (f : A → prog B) : prog B :=
  match p with
  | Ret a => f a
  | Await rq k => Await rq (λ resp, bind (k resp) f)
  end.

(** An API that answers every fetch, with a status and a decoded body. *)
Definition api_t : Type := ∀ B, request B → response B.

(** Running a tool against an API: the value returned and the paths
    requested, in order. *)
Fixpoint run {A} (api : api_t) (p : prog A) : A * list string :=
  match p with
  | Ret a => (a, [])
  | Await rq k =>
      let '(a, t) := run api (k (api _ rq)) in (a, path rq :: t)
  end.

(** An API whose fetch may fail: [None] is [client.get] raising, on a
    timeout or a transport failure. *)
Definition xapi_t : Type := ∀ B, request B → option (response B).

(** Running a tool when a fetch may raise.  No tool catches an exception,
    so a raising fetch ends the run: [None], with the paths requested up to
    and including that fetch. *)
Fixpoint run_x {A} (xapi : xapi_t) (p : prog A) : option A * list string :=
  match p with
  | Ret a => (Some a, [])
  | Await rq k =>
      match xapi _ rq with
      | None => (None, [path rq])
      | Some resp =>
          let '(a, t) := run_x xapi (k resp) in (a, path rq :: t)
      end
  end.

(** The API that answers every fetch as [api] does. *)
Definition answering (api : api_t) : xapi_t := λ B rq, Some (api B rq).

(** The API that answers as [api] does, except that the fetches of the
    paths in [down] raise. *)
Definition raising_on (down : list string) (api : api_t) : xapi_t :=
  λ B rq, if bool_decide (path rq ∈ down) then None else Some (api B rq).

(** The [{"error": ...}] payloads. *)
Inductive error : Type :=
| RegionNotFound (code : string)
| TooManyRegions
| NoValidRegion
| RegionsUnavailable
| BadBizNo
| CompanyNotFound (biz : string)
| ComplexNotFound (code : string)
| ComplexesUnavailable.

Definition error_message (e : error) : string :=
  match e with
  | RegionNotFound code => "지역코드 " ++ code ++ "를 찾을 수 없습니다"
  | TooManyRegions => "최대 5개 지역까지 비교 가능합니다"
  | NoValidRegion => "유효한 지역을 찾을 수 없습니다"
  | RegionsUnavailable => "지역 데이터를 불러올 수 없습니다"
  | BadBizNo => "사업자등록번호는 10자리여야 합니다"
  | CompanyNotFound biz =>
      "사업자등록번호 " ++ biz ++ "에 해당하는 기업을 찾을 수 없습니다"
  | ComplexNotFound code => "산업단지 " ++ code ++ "를 찾을 수 없습니다"
  | ComplexesUnavailable => "산업단지 데이터를 불러올 수 없습니다"
  end.

Inductive result (A : Type) : Type :=
| Ok (a : A)
| Err (e : error).
Arguments Ok {A} _.
Arguments Err {A} _.

(** ** Tool 1: [get_region_health] *)

Module Health.

Record metrics : Type := Metrics {
  company_count : Q;
  employee_count : Q;
  growth_rate : Q;
  new_biz_rate : Q;
  closure_rate : Q;
  revenue_growth : Q }.

Record report : Type := Report {
  region_code : string;
  region_name : string;
  province : string;
  health_score : Q;
  health_band : string;
  region_metrics : metrics }.

(** Lines 47-53: the conditional expression assigning the band. *)
Definition classify_health (score : Q) : string :=
  if Qltb score 40 then "위험"
  else if Qltb score 55 then "주의"
  else if Qltb score 70 then "보통"
  else if Qltb score 85 then "양호"
  else "우수".

Definition no_health : health := HealthMetrics None None None.

Definition get_region_health (code : string) : prog (result report) :=
  await resp ← GetRegion code;
  if status_code resp =? 404 then Ret (Err (RegionNotFound code))
  else
    let region := body resp in
    await health_resp ← GetHealth code;
    let health :=
      if status_code health_resp =? 200 then body health_resp
      else no_health in
    let score := get (reg_health_score region) 0%Q in
    let band := classify_health score in
    Ret (Ok {|
      region_code := code;
      region_name := get (reg_name region) "";
      province := get (reg_province region) "";
      health_score := score;
      health_band := band;
      region_metrics := {|
        company_count := get (reg_company_count region) 0%Q;
        employee_count := get (reg_employee_count region) 0%Q;
        growth_rate := get (reg_growth_rate region) 0%Q;
        new_biz_rate := get (h_new_biz_rate health) 0%Q;
        closure_rate := get (h_closure_rate health) 0%Q;
        revenue_growth := get (h_revenue_growth health) 0%Q |} |}).

End Health.

(** ** Tool 2: [compare_regions] *)

Module Compare.

(** The values a result dictionary holds: text, a number taken from the
    fetched record, or an integer the tool computes (a rank). *)
Inductive value : Type :=
| VStr (s : string)
| VNum (q : Q)
| VInt (n : Z).

(** A result dictionary, and the object store: the dictionaries created by
    the fetch loop, each referred to by its position.  [results], [ranked]
    and [sorted_by] are lists of references into the same store, so that an
    assignment [r[k] = v] is seen through all of them. *)
Abbreviation row := (gmap string value).
Abbreviation store := (list (gmap string value)).

(** Lines 92-99: the dictionary appended for a fetched region. *)
Definition new_row (code : string) (data : region) : row :=
  <["growth_rate" := VNum (get (reg_growth_rate data) 0%Q)]>
  (<["employee_count" := VNum (get (reg_employee_count data) 0%Q)]>
  (<["company_count" := VNum (get (reg_company_count data) 0%Q)]>
  (<["health_score" := VNum (get (reg_health_score data) 0%Q)]>
  (<["name" := VStr (get (reg_name data) "")]>
  (<["region_code" := VStr code]> ∅))))).

(** Lines 88-99: the fetch loop; a response other than 200 appends
    nothing and the loop goes on. *)
Fixpoint fetch_rows (codes : list string) (results : list row)
  : prog (list row) :=
  match codes with
  | [] => Ret results
  | code :: rest =>
      await resp ← GetRegion code;
      if status_code resp =? 200
      then fetch_rows rest (results ++ [new_row code (body resp)])%list
      else fetch_rows rest results
  end.

(** [r[k]] for the object [r] of the store. *)
Definition field (h : store) (k : string) (r : nat) : option value :=
  h !! r ≫= (.!! k).

(** The number under a sort key.  The rows of [new_row] hold a [VNum] under
    every metric; the last case is not reached on them. *)
Definition as_num (v : option value) : Q :=
  match v with
  | Some (VNum q) => q
  | Some (VInt n) => inject_Z n
  | _ => 0%Q
  end.

(** [lambda r: r[metric]]. *)
Definition metric_key (h : store) (metric : string) (r : nat) : Q :=
  as_num (field h metric r).

(** [for i, r in enumerate(refs): r[k] = i + 1], counting from [i]. *)
Fixpoint annotate (k : string) (i : nat) (refs : list nat) (h : store)
  : store :=
  match refs with
  | [] => h
  | r :: refs' =>
      annotate k (S i) refs' (alter (<[k := VInt (Z.of_nat i + 1)]>) r h)
  end.

Definition metrics : list string :=
  ["health_score"; "company_count"; "employee_count"; "growth_rate"].

(** Lines 111-113: one turn of the loop over [metrics]. *)
Definition rank_by (results : list nat) (h : store) (metric : string)
  : store :=
  let sorted_by := sorted_desc (metric_key h metric) results in
  annotate (metric ++ "_rank") 0 sorted_by h.

(** Lines 105-113: [ranked] and the store after all the annotations. *)
Definition rank_all (results : list nat) (h : store) : list nat * store :=
  let ranked := sorted_desc (metric_key h "health_score") results in
  let h := annotate "health_rank" 0 ranked h in
  (ranked, foldl (rank_by results) h metrics).

Record output : Type := Output {
  comparison : list row;
  count : nat;
  best_health : option value }.

(** Lines 104-119, on the rows the fetch loop has built. *)
Definition rank_rows (rows : list row) : output :=
  let results := seq 0 (length rows) in
  let '(ranked, h) := rank_all results rows in
  {| comparison := (λ r, h !!! r) <$> ranked;
     count := length ranked;
     best_health := match ranked with
                    | r :: _ => field h "name" r
                    | [] => None
                    end |}.

(** The references [0 .. n-1] of the fetched rows, sorted by [metric]. *)
Definition order_of (rows : store) (metric : string) : list nat :=
  sorted_desc (metric_key rows metric) (seq 0 (length rows)).

(** The codes whose fetch answers 200, in the order of the request. *)
Definition fetched (api : api_t) (codes : list string) : list string :=
  filter (λ code, status_code (api _ (GetRegion code)) = 200) codes.

(** The keys the ranking writes. *)
Definition rank_keys : list string :=
  "health_rank" :: ((λ metric, metric ++ "_rank") <$> metrics).

(** [rank] numbers the objects [0 .. n-1] from 1 to [n] by descending
    [key], objects with equal keys in the order of their creation. *)
Definition stable_ranking (key : nat → Q) (n : nat)
    (rank : nat → option value) : Prop :=
  (∀ i, (i < n)%nat → ∃ k, rank i = Some (VInt k) ∧ 1 ≤ k ≤ Z.of_nat n) ∧
  (∀ i j, (i < n)%nat → (j < n)%nat → rank i = rank j → i = j) ∧
  (∀ i j ki kj, (i < n)%nat → (j < n)%nat →
     rank i = Some (VInt ki) → rank j = Some (VInt kj) →
     ki < kj → (key j <= key i)%Q) ∧
  (∀ i j ki kj, (i < j)%nat → (j < n)%nat → (key i == key j)%Q →
     rank i = Some (VInt ki) → rank j = Some (VInt kj) → ki < kj).

Definition compare_regions (region_codes : list string)
  : prog (result output) :=
  if (5 <? length region_codes)%nat then Ret (Err TooManyRegions)
  else
    bind (fetch_rows region_codes []) (λ results,
      match results with
      | [] => Ret (Err NoValidRegion)
      | _ => Ret (Ok (rank_rows results))
      end).

End Compare.

(** ** Tool 3: [find_industry_cluster] *)

Module Cluster.

Record cluster : Type := Cluster {
  region_code : string;
  region_name : string;
  province : string;
  industry_name : string;
  company_count : Q;
  employee_count : Q;
  health_score : Q }.

Record output : Type := Output {
  industry : string;
  total_clusters : nat;
  top_clusters : list cluster;
  summary : string }.

(** Lines 147-151: the inner loop, leaving at the first entry whose name
    contains the keyword. *)
Fixpoint first_match (industry : string) (industries : list industry_entry)
  : option industry_entry :=
  match industries with
  | [] => None
  | ind :: rest =>
      if str_contains industry (get (ind_name ind) "") then Some ind
      else first_match industry rest
  end.

(** Truthiness of an entry: a dictionary with no key is falsy, one with
    any key is truthy. *)
Definition truthy (ind : industry_entry) : bool :=
  match ind_name ind, ind_count ind with
  | None, None => ind_other ind
  | _, _ => true
  end.

(** Lines 146-162: what one region appends to [clusters], if anything. *)
Definition cluster_of (industry : string) (min_companies : Z) (region : region)
  : option cluster :=
  let industries := get (reg_top_industries region) [] in
  match first_match industry industries with
  | Some m =>
      if truthy m && Qgeb (get (ind_count m) 0%Q) (inject_Z min_companies)
      then Some {|
        region_code := get (reg_code region) "";
        region_name := get (reg_name region) "";
        province := get (reg_province region) "";
        industry_name := get (ind_name m) "";
        company_count := get (ind_count m) 0%Q;
        employee_count := get (reg_employee_count region) 0%Q;
        health_score := get (reg_health_score region) 0%Q |}
      else None
  | None => None
  end.

(** Lines 143-172, on the fetched regions. *)
Definition find_clusters (regions : list region) (industry : string)
  (min_companies top_n : Z) : output :=
  let clusters := omap (cluster_of industry min_companies) regions in
  let clusters := sorted_desc company_count clusters in
  let top := slice_to top_n clusters in
  {| industry := industry;
     total_clusters := length clusters;
     top_clusters := top;
     summary := "'" ++ industry ++ "' 산업 클러스터 "
                ++ pretty (length clusters) ++ "개 발견, 상위 "
                ++ pretty (length top) ++ "개 표시" |}.

Definition find_industry_cluster (industry : string) (min_companies top_n : Z)
  : prog (result output) :=
  await resp ← ListRegions 250;
  if negb (status_code resp =? 200) then Ret (Err RegionsUnavailable)
  else Ret (Ok (find_clusters (body resp) industry min_companies top_n)).

End Cluster.

(** ** Tool 4: [get_company_360] *)

Module Company.

Record employment_info : Type := Employment {
  current : Q;
  history : list json }.

Record procurement_info : Type := Procurement {
  total_contracts : Q;
  total_amount : Q;
  recent : list json }.

Record profile : Type := Profile {
  biz_no : string;
  name : string;
  status : string;
  industry : string;
  address : string;
  employment : employment_info;
  financials : list json;
  procurement : procurement_info;
  health_score : Q;
  region_code : string }.

(** Line 187: [biz_no.replace("-", "")]. *)
Definition clean (biz_no : string) : string := replace_char "-" "" biz_no.

Definition get_company_360 (biz_no : string) : prog (result profile) :=
  let clean_biz := clean biz_no in
  if negb (py_len clean_biz =? 10)%nat then Ret (Err BadBizNo)
  else
    await resp ← GetCompany clean_biz;
    if status_code resp =? 404 then Ret (Err (CompanyNotFound clean_biz))
    else
      let company := body resp in
      Ret (Ok {|
        biz_no := clean_biz;
        name := get (co_name company) "";
        status := get (co_status company) "";
        industry := get (co_industry_name company) "";
        address := get (co_address company) "";
        employment := {|
          current := get (co_employee_count company) 0%Q;
          history := get (co_employment_history company) [] |};
        financials := get (co_financials company) [];
        procurement := {|
          total_contracts := get (co_procurement_count company) 0%Q;
          total_amount := get (co_procurement_amount company) 0%Q;
          recent := get (co_recent_procurement company) [] |};
        health_score := get (co_health_score company) 0%Q;
        region_code := get (co_region_code company) "" |}).

End Company.

(** ** Tool 5: [predict_complex_risk] *)

Module Risk.

(** A triggered factor: the label of its text and the figure the f-string
    puts in parentheses after it. *)
Record factor : Type := Factor {
  factor_label : string;
  factor_value : Q }.

Record risk_metrics : Type := RiskMetrics {
  occupancy_rate : Q;
  operating_rate : Q;
  tenant_count : Q;
  employment : Q }.

Record entry : Type := Entry {
  complex_code : string;
  name : string;
  risk_score : Z;
  risk_level : string;
  factors : list factor;
  metrics : risk_metrics }.

Record report : Type := Report {
  total_analyzed : nat;
  high_risk_count : nat;
  results : list entry;
  summary : string }.

(** Line 249: [cx.get("tenant_count", 0) or 1]. *)
Definition tenant_of (cx : complex) : Q :=
  num_or (get (cx_tenant_count cx) 0%Q) 1%Q.

(** Line 254: [(operating / tenant) * 100 if tenant > 0 else 0]; [None]
    when the division raises. *)
Definition op_rate_of (operating tenant : Q) : option Q :=
  if Qltb 0 tenant then q ← truediv operating tenant; Some (q * 100)%Q
  else Some 0%Q.

(** Lines 260-265, 267-272 and 274-276: the three rules, each acting on the
    running score and factor list. *)
Definition occupancy_rule (occupancy : Q) (st : Z * list factor)
  : Z * list factor :=
  let '(risk_score, factors) := st in
  if Qltb occupancy 70
  then (risk_score + 30, (factors ++ [Factor "낮은 분양률" occupancy])%list)
  else if Qltb occupancy 85
  then (risk_score + 15, (factors ++ [Factor "보통 분양률" occupancy])%list)
  else (risk_score, factors).

Definition operating_rule (op_rate : Q) (st : Z * list factor)
  : Z * list factor :=
  let '(risk_score, factors) := st in
  if Qltb op_rate 60
  then (risk_score + 30, (factors ++ [Factor "낮은 가동률" op_rate])%list)
  else if Qltb op_rate 80
  then (risk_score + 15, (factors ++ [Factor "보통 가동률" op_rate])%list)
  else (risk_score, factors).

Definition employment_rule (employment : Q) (st : Z * list factor)
  : Z * list factor :=
  let '(risk_score, factors) := st in
  if Qltb employment 1000
  then (risk_score + 20, (factors ++ [Factor "소규모 고용" employment])%list)
  else (risk_score, factors).

(** What each rule contributes when run on its own from an empty state:
    its points and its factor, by its own figure alone. *)
Definition occupancy_points (occupancy : Q) : Z :=
  (occupancy_rule occupancy (0, [])).1.
Definition operating_points (op_rate : Q) : Z :=
  (operating_rule op_rate (0, [])).1.
Definition employment_points (employment : Q) : Z :=
  (employment_rule employment (0, [])).1.

(** Lines 278-282. *)
Definition level_of (risk_score : Z) : string :=
  if 50 <=? risk_score then "높음"
  else if 25 <=? risk_score then "보통"
  else "낮음".

(** Lines 249-296: the body of the loop for one complex; [None] when it
    raises [ZeroDivisionError]. *)
Definition assess (cx : complex) : option entry :=
  let tenant := tenant_of cx in
  let operating := get (cx_operating_count cx) 0%Q in
  let occupancy := get (cx_occupancy_rate cx) 0%Q in
  let employment := get (cx_employment cx) 0%Q in
  op_rate ← op_rate_of operating tenant;
  let st := (0, []) in
  let st := occupancy_rule occupancy st in
  let st := operating_rule op_rate st in
  let '(risk_score, factors) := employment_rule employment st in
  Some {|
    complex_code := get (cx_id cx) (get (cx_complex_code cx) "");
    name := get (cx_name cx) "";
    risk_score := risk_score;
    risk_level := level_of risk_score;
    factors := factors;
    metrics := {|
      occupancy_rate := occupancy;
      operating_rate := round1 op_rate;
      tenant_count := tenant;
      employment := employment |} |}.

Definition is_high (r : entry) : bool := String.eqb (risk_level r) "높음".

(** Lines 247-306, on the fetched complexes. *)
Definition assess_risk (complexes : list complex) : option report :=
  risk_results ← mapM assess complexes;
  let risk_results := sorted_desc (λ r, inject_Z (risk_score r)) risk_results in
  let high_risk := filter (λ r, is_high r = true) risk_results in
  Some {|
    total_analyzed := length risk_results;
    high_risk_count := length high_risk;
    results := slice_to 20 risk_results;
    summary := "총 " ++ pretty (length risk_results) ++ "개 단지 분석, "
               ++ pretty (length high_risk) ++ "개 고위험" |}.

(** The tool returns a payload or an error payload, or raises ([None]). *)
Definition predict_complex_risk (complex_code province : string)
  : prog (option (result report)) :=
  let params := if String.eqb province "" then None else Some province in
  if negb (String.eqb complex_code "") then
    await resp ← GetComplex complex_code;
    if status_code resp =? 404
    then Ret (Some (Err (ComplexNotFound complex_code)))
    else Ret (Ok <$> assess_risk [body resp])
  else
    await resp ← ListComplexes params;
    if negb (status_code resp =? 200)
    then Ret (Some (Err ComplexesUnavailable))
    else Ret (Ok <$> assess_risk (body resp)).

End Risk.

(** ** Test data *)

Definition no_region : region :=
  Region None None None None None None None None.

(** An API that knows the regions of [table] and nothing else. *)
Definition api_of_regions (table : list (string * region)) : api_t :=
  λ B rq,
    match rq in request B return response B with
    | GetRegion code =>
        match (list_to_map table : gmap string region) !! code with
        | Some r => Response 200 r
        | None => Response 404 no_region
        end
    | GetHealth _ => Response 404 Health.no_health
    | ListRegions _ => Response 200 (table.*2)
    | GetCompany _ =>
        Response 404 (Company None None None None None None
                        None None None None None None)
    | GetComplex _ => Response 404 (Complex None None None None None None None)
    | ListComplexes _ => Response 200 []
    end.

(** A region with a name and a health score only. *)
Definition scored (name : string) (score : Q) : region :=
  Region None (Some name) None None None None (Some score) None.

(** * Properties *)

(** ** Comparisons of numbers *)

Lemma Qltb_lt (x y : Q) : Qltb x y = true ↔ (x < y)%Q.
Proof.
  unfold Qltb. rewrite negb_true_iff, <- not_true_iff_false, Qle_bool_iff.
  split; [apply Qnot_le_lt | apply Qlt_not_le].
Qed.

Lemma Qltb_ge (x y : Q) : Qltb x y = false ↔ (y <= x)%Q.
Proof. unfold Qltb. rewrite negb_false_iff. apply Qle_bool_iff. Qed.

Lemma Qgeb_ge (x y : Q) : Qgeb x y = true ↔ (y <= x)%Q.
Proof. apply Qle_bool_iff. Qed.

(** Case analysis on a comparison, leaving the order fact in the context. *)
Ltac case_Qltb x y :=
  let H := fresh "Hcmp" in
  destruct (Qltb x y) eqn:H;
  [apply Qltb_lt in H | apply Qltb_ge in H].

(** ** Health bands *)

Section HealthProps.
Import Health.

(** C2.  [classify_health] is total and assigns each score exactly one of
    the five bands: below 40 "위험", from 40 below 55 "주의", from 55 below
    70 "보통", from 70 below 85 "양호", from 85 on "우수", every boundary
    belonging to the upper band; 38 is "위험" and 85 is "우수"; and the band
    [get_region_health] reports is the one of the score it reports. *)
Theorem classify_health_partition :
  (∀ s : Q,
    (classify_health s = "위험" ↔ (s < 40)%Q) ∧
    (classify_health s = "주의" ↔ (40 <= s)%Q ∧ (s < 55)%Q) ∧
    (classify_health s = "보통" ↔ (55 <= s)%Q ∧ (s < 70)%Q) ∧
    (classify_health s = "양호" ↔ (70 <= s)%Q ∧ (s < 85)%Q) ∧
    (classify_health s = "우수" ↔ (85 <= s)%Q)) ∧
  classify_health 38 = "위험" ∧
  classify_health 40 = "주의" ∧
  classify_health 55 = "보통" ∧
  classify_health 70 = "양호" ∧
  classify_health 85 = "우수" ∧
  (∀ api code,
    match (run api (get_region_health code)).1 with
    | Ok r => health_band r = classify_health (health_score r)
    | Err _ => True
    end).
Proof.
  split; [| repeat split; try reflexivity].
  - intros s. unfold classify_health.
    case_Qltb s 40%Q; [| case_Qltb s 55%Q; [| case_Qltb s 70%Q;
      [| case_Qltb s 85%Q]]];
      repeat split; intros; try discriminate; try lra; try tauto.
  - intros api code. unfold get_region_health. simpl.
    destruct (status_code (api region (GetRegion code)) =? 404); simpl; done.
Qed.

End HealthProps.

(** ** The stable descending sort *)

Section SortingProps.
Context {A : Type} (key : A → Q).

Lemma insert_desc_perm (x : A) (l : list A) : insert_desc key x l ≡ₚ x :: l.
Proof.
  induction l as [|y l IH]; simpl; [done |].
  destruct (Qltb (key x) (key y)); [| done].
  rewrite IH. apply Permutation_swap.
Qed.

Lemma sorted_desc_perm (l : list A) : sorted_desc key l ≡ₚ l.
Proof.
  induction l as [|x l IH]; simpl; [done |].
  by rewrite insert_desc_perm, IH.
Qed.

Lemma sorted_desc_length (l : list A) : length (sorted_desc key l) = length l.
Proof. by rewrite sorted_desc_perm. Qed.

Lemma insert_desc_sorted (x : A) (l : list A) :
  StronglySorted (desc key) l → StronglySorted (desc key) (insert_desc key x l).
Proof.
  induction 1 as [|y l Hs IH Hall]; simpl.
  - repeat constructor.
  - case_Qltb (key x) (key y).
    + constructor; [done |].
      rewrite insert_desc_perm. constructor; [| done].
      unfold desc. lra.
    + constructor; [by constructor |].
      constructor; [done |].
      eapply Forall_impl; [exact Hall |].
      unfold desc. intros z Hz. simpl in Hz. lra.
Qed.

Lemma sorted_desc_sorted (l : list A) : StronglySorted (desc key) (sorted_desc key l).
Proof.
  induction l; simpl; [constructor | by apply insert_desc_sorted].
Qed.

Context (before : A → A → Prop).

Lemma insert_desc_stable (x : A) (l : list A) :
  Forall (before x) l →
  StronglySorted (stable_order key before) l →
  StronglySorted (stable_order key before) (insert_desc key x l).
Proof.
  intros Hx Hs. induction Hs as [|y l Hs IH Hall]; simpl.
  - repeat constructor.
  - apply Forall_cons in Hx as [Hxy Hx].
    case_Qltb (key x) (key y).
    + constructor; [by apply IH |].
      rewrite insert_desc_perm. constructor; [| done]. by left.
    + constructor; [by constructor |].
      assert (Hy : stable_order key before x y).
      { destruct (Qlt_le_dec (key y) (key x)); [by left | right].
        split; [lra | done]. }
      constructor; [done |].
      rewrite Forall_forall in Hall, Hx. apply Forall_forall.
      intros z Hz. specialize (Hall z Hz). specialize (Hx z Hz).
      destruct Hall as [Hlt | [Heq _]].
      * left. lra.
      * destruct (Qlt_le_dec (key z) (key x)); [by left | right].
        split; [lra | done].
Qed.

Lemma sorted_desc_stable (l : list A) :
  StronglySorted before l → StronglySorted (stable_order key before) (sorted_desc key l).
Proof.
  induction 1 as [|x l Hs IH Hall]; simpl; [constructor |].
  apply insert_desc_stable; [| done].
  by rewrite sorted_desc_perm.
Qed.
End SortingProps.

(** The sort reads the elements through their keys only. *)
Lemma sorted_desc_ext {A} (key1 key2 : A → Q) (l : list A) :
  (∀ a, key1 a = key2 a) → sorted_desc key1 l = sorted_desc key2 l.
Proof.
  intros Hk. induction l as [|x l IH]; simpl; [done |].
  rewrite IH. generalize (sorted_desc key2 l). intros s.
  induction s as [|y s IHs]; simpl; [done |].
  by rewrite !Hk, IHs.
Qed.

(** In a strongly sorted list, an earlier position is related to a later one. *)
Lemma StronglySorted_lookup_lt {A} (R : A → A → Prop) (l : list A)
    (i j : nat) (x y : A) :
  StronglySorted R l → l !! i = Some x → l !! j = Some y → (i < j)%nat → R x y.
Proof.
  intros Hs. revert i j. induction Hs as [|z l Hs IH Hall]; intros i j Hi Hj Hij.
  - by rewrite lookup_nil in Hi.
  - destruct j as [|j]; [lia |]. simpl in Hj.
    destruct i as [|i]; simpl in Hi.
    + injection Hi as <-. rewrite Forall_forall in Hall.
      apply Hall. by eapply list_elem_of_lookup_2.
    + eapply IH; [done | done | lia].
Qed.

Lemma StronglySorted_weaken {A} (R R' : A → A → Prop) (l : list A) :
  (∀ a b, R a b → R' a b) → StronglySorted R l → StronglySorted R' l.
Proof.
  intros HR. induction 1 as [|x l Hs IH Hall]; constructor; [done |].
  eapply Forall_impl; [exact Hall | auto].
Qed.

(** ** Slices *)

Lemma slice_to_length_le {A} (n : Z) (l : list A) :
  (length (slice_to n l) ≤ length l)%nat.
Proof. unfold slice_to. destruct (0 <=? n); rewrite length_take; lia. Qed.

Lemma slice_to_length_nonneg {A} (n : Z) (l : list A) :
  0 ≤ n → length (slice_to n l) = (Z.to_nat n `min` length l)%nat.
Proof.
  intros Hn. unfold slice_to.
  destruct (Z.leb_spec 0 n); [| lia]. by rewrite length_take.
Qed.

Lemma slice_to_length_neg {A} (n : Z) (l : list A) :
  n < 0 → Z.of_nat (length (slice_to n l)) = Z.max 0 (Z.of_nat (length l) + n).
Proof.
  intros Hn. unfold slice_to.
  destruct (Z.leb_spec 0 n); [lia |]. rewrite length_take. lia.
Qed.

Lemma slice_to_prefix {A} (n : Z) (l : list A) :
  ∃ rest, l = (slice_to n l ++ rest)%list.
Proof.
  unfold slice_to. destruct (0 <=? n); eexists; symmetry; apply take_drop.
Qed.

(** ** Risk classification *)

Section RiskProps.
Import Risk.

(** The division of line 254 is only evaluated on a positive divisor. *)
Lemma op_rate_of_spec (operating tenant : Q) :
  op_rate_of operating tenant =
    Some (if Qltb 0 tenant then (operating / tenant * 100)%Q else 0%Q).
Proof.
  unfold op_rate_of, truediv. case_Qltb 0%Q tenant; [| done].
  destruct (Qeq_bool tenant 0) eqn:Hz; [| done].
  apply Qeq_bool_iff in Hz. lra.
Qed.

Lemma tenant_of_zero (cx : complex) :
  (get (cx_tenant_count cx) 0 == 0)%Q → tenant_of cx = 1%Q.
Proof.
  intros H. unfold tenant_of, num_or.
  by rewrite (proj2 (Qeq_bool_iff _ _) H).
Qed.

Lemma round1_zero (q : Q) : (q == 0)%Q → round1 q = 0%Q.
Proof.
  intros H. unfold round1, round_half_even.
  assert (Hf : Qfloor (q * 10) = 0).
  { rewrite (Qfloor_comp (q * 10) (inject_Z 0)); [apply Qfloor_Z |].
    rewrite H. reflexivity. }
  rewrite Hf.
  case_Qltb (q * 10 - inject_Z 0)%Q (1 # 2)%Q; [reflexivity |].
  exfalso. unfold inject_Z in *. lra.
Qed.

Lemma occupancy_rule_acc (x : Q) (s : Z) (fs : list factor) :
  occupancy_rule x (s, fs) =
    (s + occupancy_points x, (fs ++ (occupancy_rule x (0, [])).2)%list).
Proof.
  unfold occupancy_points, occupancy_rule.
  repeat case_match; simpl; f_equal; rewrite ?app_nil_r; done || lia.
Qed.

Lemma operating_rule_acc (x : Q) (s : Z) (fs : list factor) :
  operating_rule x (s, fs) =
    (s + operating_points x, (fs ++ (operating_rule x (0, [])).2)%list).
Proof.
  unfold operating_points, operating_rule.
  repeat case_match; simpl; f_equal; rewrite ?app_nil_r; done || lia.
Qed.

Lemma employment_rule_acc (x : Q) (s : Z) (fs : list factor) :
  employment_rule x (s, fs) =
    (s + employment_points x, (fs ++ (employment_rule x (0, [])).2)%list).
Proof.
  unfold employment_points, employment_rule.
  repeat case_match; simpl; f_equal; rewrite ?app_nil_r; done || lia.
Qed.

Lemma assess_spec (cx : complex) :
  ∃ e op_rate,
    assess cx = Some e ∧
    op_rate_of (get (cx_operating_count cx) 0%Q) (tenant_of cx) = Some op_rate ∧
    risk_score e =
      occupancy_points (get (cx_occupancy_rate cx) 0%Q)
      + operating_points op_rate
      + employment_points (get (cx_employment cx) 0%Q) ∧
    factors e =
      ((occupancy_rule (get (cx_occupancy_rate cx) 0%Q) (0, [])).2
       ++ (operating_rule op_rate (0, [])).2
       ++ (employment_rule (get (cx_employment cx) 0%Q) (0, [])).2)%list ∧
    risk_level e = level_of (risk_score e) ∧
    tenant_count (metrics e) = tenant_of cx ∧
    operating_rate (metrics e) = round1 op_rate.
Proof.
  unfold assess. rewrite op_rate_of_spec.
  set (op := if Qltb 0 (tenant_of cx) then _ else _).
  cbn [mbind option_bind].
  rewrite (occupancy_rule_acc _ 0 []), operating_rule_acc, employment_rule_acc.
  eexists _, op. split; [reflexivity |].
  cbn [risk_score factors risk_level metrics tenant_count operating_rate snd].
  repeat split. by rewrite app_assoc.
Qed.

Lemma points_range (x : Q) :
  (occupancy_points x = 30 ∨ occupancy_points x = 15 ∨ occupancy_points x = 0) ∧
  (operating_points x = 30 ∨ operating_points x = 15 ∨ operating_points x = 0) ∧
  (employment_points x = 20 ∨ employment_points x = 0).
Proof.
  unfold occupancy_points, operating_points, employment_points,
    occupancy_rule, operating_rule, employment_rule.
  repeat case_match; simpl; auto.
Qed.

Lemma points_thresholds (x : Q) :
  (occupancy_points x = 30 ↔ (x < 70)%Q) ∧
  (occupancy_points x = 15 ↔ (70 <= x)%Q ∧ (x < 85)%Q) ∧
  (occupancy_points x = 0 ↔ (85 <= x)%Q) ∧
  (operating_points x = 30 ↔ (x < 60)%Q) ∧
  (operating_points x = 15 ↔ (60 <= x)%Q ∧ (x < 80)%Q) ∧
  (operating_points x = 0 ↔ (80 <= x)%Q) ∧
  (employment_points x = 20 ↔ (x < 1000)%Q) ∧
  (employment_points x = 0 ↔ (1000 <= x)%Q).
Proof.
  unfold occupancy_points, operating_points, employment_points,
    occupancy_rule, operating_rule, employment_rule.
  case_Qltb x 70%Q; case_Qltb x 85%Q; case_Qltb x 60%Q; case_Qltb x 80%Q;
    case_Qltb x 1000%Q; simpl;
    repeat split; intros; try discriminate; try lra; try tauto.
Qed.

Lemma factors_length (x : Q) :
  (length (occupancy_rule x (0%Z, [])).2 ≤ 1)%nat ∧
  (length (operating_rule x (0%Z, [])).2 ≤ 1)%nat ∧
  (length (employment_rule x (0%Z, [])).2 ≤ 1)%nat.
Proof.
  unfold occupancy_rule, operating_rule, employment_rule.
  repeat case_match; simpl; lia.
Qed.

Lemma level_of_thresholds (s : Z) :
  (level_of s = "높음" ↔ 50 ≤ s) ∧
  (level_of s = "보통" ↔ 25 ≤ s < 50) ∧
  (level_of s = "낮음" ↔ s < 25).
Proof.
  unfold level_of.
  destruct (Z.leb_spec 50 s); [| destruct (Z.leb_spec 25 s)];
    repeat split; intros; try discriminate; try lia.
Qed.

(** C3.  Every complex is scored: the score is the sum of the contributions
    of the three rules, each fixed by its own figure (occupancy 30 below 70
    and 15 from 70 below 85; operating rate 30 below 60 and 15 from 60 below
    80; employment 20 below 1000), with at most three factors, and lies in
    0..80; the level is a function of the score alone, "높음" (high) from 50,
    "보통" (moderate) from 25 below 50, "낮음" (low) below 25, and it is
    monotonic.  The complex with 10 tenants, 5 operating, occupancy 65 and
    employment 500 has operating rate 50.0, the factors of low occupancy,
    low operating rate and small employment in that order, score 80 and
    level "높음". *)
Theorem risk_score_range_and_level :
  (∀ cx : complex, ∃ e op_rate,
    assess cx = Some e ∧
    op_rate_of (get (cx_operating_count cx) 0%Q) (tenant_of cx)
      = Some op_rate ∧
    risk_score e =
      occupancy_points (get (cx_occupancy_rate cx) 0%Q)
      + operating_points op_rate
      + employment_points (get (cx_employment cx) 0%Q) ∧
    (length (factors e) ≤ 3)%nat ∧
    0 ≤ risk_score e ≤ 80 ∧
    risk_level e = level_of (risk_score e)) ∧
  (∀ x : Q,
    (occupancy_points x = 30 ↔ (x < 70)%Q) ∧
    (occupancy_points x = 15 ↔ (70 <= x)%Q ∧ (x < 85)%Q) ∧
    (occupancy_points x = 0 ↔ (85 <= x)%Q) ∧
    (operating_points x = 30 ↔ (x < 60)%Q) ∧
    (operating_points x = 15 ↔ (60 <= x)%Q ∧ (x < 80)%Q) ∧
    (operating_points x = 0 ↔ (80 <= x)%Q) ∧
    (employment_points x = 20 ↔ (x < 1000)%Q) ∧
    (employment_points x = 0 ↔ (1000 <= x)%Q)) ∧
  (∀ s : Z,
    (level_of s = "높음" ↔ 50 ≤ s) ∧
    (level_of s = "보통" ↔ 25 ≤ s < 50) ∧
    (level_of s = "낮음" ↔ s < 25)) ∧
  (∀ s1 s2 : Z, s1 ≤ s2 →
    (level_of s1 = "높음" → level_of s2 = "높음") ∧
    (level_of s2 = "낮음" → level_of s1 = "낮음")) ∧
  (∃ e,
    assess (Complex None None None
              (Some 10%Q) (Some 5%Q) (Some 65%Q) (Some 500%Q)) = Some e ∧
    operating_rate (metrics e) = 50%Q ∧
    factor_label <$> factors e = ["낮은 분양률"; "낮은 가동률"; "소규모 고용"] ∧
    Forall2 Qeq (factor_value <$> factors e) [65%Q; 50%Q; 500%Q] ∧
    risk_score e = 80 ∧
    risk_level e = "높음").
Proof.
  split; [| split; [exact points_thresholds | split;
    [exact level_of_thresholds | split]]].
  - intros cx.
    destruct (assess_spec cx) as (e & op & He & Hop & Hs & Hf & Hl & _).
    exists e, op. split; [done |]. split; [done |]. split; [done |].
    destruct (points_range (get (cx_occupancy_rate cx) 0%Q)) as (Ho & _ & _).
    destruct (points_range op) as (_ & Hp & _).
    destruct (points_range (get (cx_employment cx) 0%Q)) as (_ & _ & Hm).
    destruct (factors_length (get (cx_occupancy_rate cx) 0%Q)) as (Lo & _ & _).
    destruct (factors_length op) as (_ & Lp & _).
    destruct (factors_length (get (cx_employment cx) 0%Q)) as (_ & _ & Lm).
    split; [rewrite Hf, !length_app; lia |].
    split; [lia | done].
  - intros s1 s2 Hle.
    destruct (level_of_thresholds s1) as (H1 & _ & L1).
    destruct (level_of_thresholds s2) as (H2 & _ & L2).
    split; intros H.
    + apply H2. apply H1 in H. lia.
    + apply L1. apply L2 in H. lia.
  - eexists. split; [reflexivity |]. vm_compute.
    repeat split; try reflexivity.
    repeat constructor.
Qed.

(** C1, the claim as stated fails: with no tenant and five operating
    companies the divisor is 1 and the operating rate is 500, not 0. *)
Lemma tenant_zero_rate_not_zero :
  cx_tenant_count
    (Complex None None None (Some 0%Q) (Some 5%Q) None None) = Some 0%Q ∧
  ∃ e,
    assess (Complex None None None (Some 0%Q) (Some 5%Q) None None) = Some e ∧
    operating_rate (metrics e) = 500%Q ∧
    ¬ (operating_rate (metrics e) == 0)%Q.
Proof.
  split; [reflexivity |]. eexists. split; [reflexivity |].
  split; [reflexivity |]. vm_compute. discriminate.
Qed.

(** C1, amended.  For a complex whose tenant count is 0 (or absent) the
    divisor is floored at 1, the derivation raises no division fault and
    the operating rate is the operating count times 100, reported rounded
    to one decimal; it is 0 when the operating count is 0. *)
Theorem tenant_zero_divisor_floored (cx : complex) :
  (get (cx_tenant_count cx) 0 == 0)%Q →
  tenant_of cx = 1%Q ∧
  ∃ e op_rate,
    assess cx = Some e ∧
    op_rate_of (get (cx_operating_count cx) 0%Q) (tenant_of cx)
      = Some op_rate ∧
    (op_rate == get (cx_operating_count cx) 0 * 100)%Q ∧
    tenant_count (metrics e) = 1%Q ∧
    operating_rate (metrics e) = round1 op_rate ∧
    ((get (cx_operating_count cx) 0 == 0)%Q →
     operating_rate (metrics e) = 0%Q).
Proof.
  intros Hz. pose proof (tenant_of_zero cx Hz) as Ht. split; [done |].
  destruct (assess_spec cx) as (e & op & He & Hop & _ & _ & _ & Htc & Hr).
  exists e, op. split; [done |]. split; [done |].
  assert (Hval : (op == get (cx_operating_count cx) 0 * 100)%Q).
  { rewrite op_rate_of_spec, Ht in Hop. injection Hop as <-.
    change (Qltb 0 1) with true. cbn iota. field. }
  split; [done |]. split; [by rewrite Htc |]. split; [done |].
  intros H0. rewrite Hr. apply round1_zero. rewrite Hval, H0. reflexivity.
Qed.

(** C1, amended, at the complex with no tenant and five operating
    companies. *)
Lemma tenant_zero_divisor_floored_witness :
  tenant_of (Complex None None None (Some 0%Q) (Some 5%Q) None None) = 1%Q ∧
  ∃ e op_rate,
    assess (Complex None None None (Some 0%Q) (Some 5%Q) None None)
      = Some e ∧
    op_rate_of 5%Q
      (tenant_of (Complex None None None (Some 0%Q) (Some 5%Q) None None))
      = Some op_rate ∧
    (op_rate == 5 * 100)%Q ∧
    tenant_count (metrics e) = 1%Q ∧
    operating_rate (metrics e) = round1 op_rate ∧
    ((5 == 0)%Q → operating_rate (metrics e) = 0%Q).
Proof.
  apply (tenant_zero_divisor_floored
           (Complex None None None (Some 0%Q) (Some 5%Q) None None)).
  reflexivity.
Defined.

Lemma assess_all_total (complexes : list complex) :
  ∃ all, mapM assess complexes = Some all.
Proof.
  apply mapM_is_Some, Forall_forall. intros cx _.
  destruct (assess_spec cx) as (e & _ & He & _). by exists e.
Qed.

Lemma is_high_level (e : entry) : is_high e = true ↔ risk_level e = "높음".
Proof. apply String.eqb_eq. Qed.

Lemma assess_risk_spec (complexes : list complex) :
  ∃ rep all rest,
    assess_risk complexes = Some rep ∧
    Forall2 (λ cx e, assess cx = Some e) complexes all ∧
    (results rep ++ rest)%list ≡ₚ all ∧
    StronglySorted (λ a b, risk_score b ≤ risk_score a)
      (results rep ++ rest)%list ∧
    length (results rep) = (20 `min` length complexes)%nat ∧
    total_analyzed rep = length complexes ∧
    high_risk_count rep = length (filter (λ e, risk_level e = "높음") all).
Proof.
  destruct (assess_all_total complexes) as [all Hall].
  pose proof (proj1 (mapM_Some _ _ _) Hall) as Hf2.
  pose proof (Forall2_length _ _ _ Hf2) as Hlen.
  unfold assess_risk. rewrite Hall. cbn [mbind option_bind].
  set (key := λ r : entry, inject_Z (risk_score r)).
  destruct (slice_to_prefix 20 (sorted_desc key all)) as [rest Hrest].
  eexists _, all, rest. split; [reflexivity |].
  cbn [results total_analyzed high_risk_count].
  split; [done |].
  split; [by rewrite <- Hrest, sorted_desc_perm |].
  split.
  { rewrite <- Hrest.
    eapply StronglySorted_weaken; [| apply (sorted_desc_sorted key)].
    intros a b. unfold desc, key. by rewrite <- Zle_Qle. }
  split.
  { rewrite slice_to_length_nonneg by lia.
    rewrite sorted_desc_length. lia. }
  split; [rewrite sorted_desc_length; lia |].
  rewrite (list_filter_iff _ (λ e, risk_level e = "높음"))
    by (intros; apply is_high_level).
  by rewrite sorted_desc_perm.
Qed.

(** C9.  The report is always produced.  Its list holds the first 20
    entries (all of them when there are fewer) of the descending order by
    risk score of the entries of all analysed complexes, while
    [total_analyzed] is the number of complexes and [high_risk_count] the
    number of all entries whose level is "높음", truncated or not; the tool
    returns such a report or an error payload and never raises.  Of 25
    complexes at high risk, 20 are listed and 25 counted. *)
Theorem risk_report_counts_untruncated :
  (∀ complexes : list complex, ∃ rep all rest,
    assess_risk complexes = Some rep ∧
    Forall2 (λ cx e, assess cx = Some e) complexes all ∧
    (results rep ++ rest)%list ≡ₚ all ∧
    StronglySorted (λ a b, risk_score b ≤ risk_score a)
      (results rep ++ rest)%list ∧
    length (results rep) = (20 `min` length complexes)%nat ∧
    total_analyzed rep = length complexes ∧
    high_risk_count rep = length (filter (λ e, risk_level e = "높음") all)) ∧
  (∀ api complex_code province,
    match (run api (predict_complex_risk complex_code province)).1 with
    | Some (Ok rep) =>
        (length (results rep) ≤ 20)%nat ∧
        (length (results rep) ≤ total_analyzed rep)%nat ∧
        (high_risk_count rep ≤ total_analyzed rep)%nat
    | Some (Err _) => True
    | None => False
    end) ∧
  (∃ rep,
    assess_risk (replicate 25 (Complex None None None None None None None))
      = Some rep ∧
    length (results rep) = 20%nat ∧
    total_analyzed rep = 25%nat ∧
    high_risk_count rep = 25%nat).
Proof.
  split; [exact assess_risk_spec |].
  split; [| eexists; split; [reflexivity |]; by vm_compute].
  assert (Hrep : ∀ complexes,
    match Ok <$> assess_risk complexes with
    | Some (Ok rep) =>
        (length (results rep) ≤ 20)%nat ∧
        (length (results rep) ≤ total_analyzed rep)%nat ∧
        (high_risk_count rep ≤ total_analyzed rep)%nat
    | Some (Err _) => True
    | None => False
    end).
  { intros complexes.
    destruct (assess_risk_spec complexes)
      as (rep & all & rest & -> & Hf2 & _ & _ & Hl & Ht & Hh).
    simpl. rewrite Hl, Ht, Hh.
    pose proof (Forall2_length _ _ _ Hf2) as Hlen.
    pose proof (length_filter (λ e, risk_level e = "높음") all). lia. }
  intros api complex_code province. unfold predict_complex_risk.
  destruct (negb (complex_code =? "")%string); simpl.
  - destruct (status_code _ =? 404); simpl; [done | apply Hrep].
  - destruct (negb (status_code _ =? 200)); simpl; [done | apply Hrep].
Qed.

End RiskProps.

(** ** Substrings *)

Lemma starts_with_spec (p s : string) :
  starts_with p s = true ↔ ∃ post, s = p ++ post.
Proof.
  revert s. induction p as [|a p IH]; intros s; simpl.
  - split; [by exists s | done].
  - destruct s as [|b s]; simpl.
    + split; [done | by intros [post ?]].
    + rewrite andb_true_iff, Ascii.eqb_eq, IH. split.
      * intros [-> [post ->]]. by exists post.
      * intros [post Hs]. injection Hs as -> ->. eauto.
Qed.

Lemma str_contains_spec (needle hay : string) :
  str_contains needle hay = true ↔ ∃ pre post, hay = pre ++ needle ++ post.
Proof.
  induction hay as [|c hay IH]; simpl.
  - rewrite orb_false_r, starts_with_spec. split.
    + intros [post H]. by exists "", post.
    + intros [pre [post H]]. destruct pre; [by exists post | done].
  - rewrite orb_true_iff, starts_with_spec, IH. split.
    + intros [[post H] | [pre [post H]]].
      * by exists "", post.
      * exists (String c pre), post. simpl. by rewrite H.
    + intros [pre [post H]]. destruct pre as [|c' pre]; simpl in H.
      * left. by exists post.
      * right. injection H as _ H. by exists pre, post.
Qed.

(** ** Cluster matching *)

Section ClusterProps.
Import Cluster.

Lemma first_match_Some (kw : string) (inds : list industry_entry)
    (m : industry_entry) :
  first_match kw inds = Some m ↔
  ∃ pre post,
    inds = (pre ++ m :: post)%list ∧
    str_contains kw (get (ind_name m) "") = true ∧
    Forall (λ i, str_contains kw (get (ind_name i) "") = false) pre.
Proof.
  induction inds as [|i inds IH]; simpl.
  - split; [done |]. intros (pre & post & H & _). by destruct pre.
  - destruct (str_contains kw (get (ind_name i) "")) eqn:Hi.
    + split.
      * intros [= <-]. by exists [], inds.
      * intros (pre & post & H & Hm & Hpre). destruct pre as [|j pre].
        { by injection H as ->. }
        injection H as -> _. apply Forall_cons in Hpre as [Hj _]. congruence.
    + rewrite IH. split.
      * intros (pre & post & -> & Hm & Hpre).
        exists (i :: pre), post. repeat split; [done |]. by constructor.
      * intros (pre & post & H & Hm & Hpre). destruct pre as [|j pre].
        { injection H as -> _. congruence. }
        injection H as -> ->. apply Forall_cons in Hpre as [_ Hpre].
        by exists pre, post.
Qed.

Lemma first_match_None (kw : string) (inds : list industry_entry) :
  first_match kw inds = None ↔
  Forall (λ i, str_contains kw (get (ind_name i) "") = false) inds.
Proof.
  induction inds as [|i inds IH]; simpl; [by split |].
  rewrite Forall_cons, <- IH.
  destruct (str_contains kw (get (ind_name i) "")); [| tauto].
  split; [done | by intros [? _]].
Qed.

Lemma cluster_of_Some (kw : string) (min_companies : Z) (r : region)
    (c : cluster) :
  cluster_of kw min_companies r = Some c ↔
  ∃ m,
    first_match kw (get (reg_top_industries r) []) = Some m ∧
    truthy m = true ∧
    (inject_Z min_companies <= get (ind_count m) 0)%Q ∧
    c = {| region_code := get (reg_code r) "";
           region_name := get (reg_name r) "";
           province := get (reg_province r) "";
           industry_name := get (ind_name m) "";
           company_count := get (ind_count m) 0%Q;
           employee_count := get (reg_employee_count r) 0%Q;
           health_score := get (reg_health_score r) 0%Q |}.
Proof.
  unfold cluster_of.
  destruct (first_match kw (get (reg_top_industries r) [])) as [m|].
  2: { split; [done |]. by intros (m' & Hm & _). }
  destruct (truthy m) eqn:Ht; simpl.
  - destruct (Qgeb _ _) eqn:Hc.
    + apply Qgeb_ge in Hc. split.
      * intros [= <-]. by exists m.
      * by intros (m' & [= <-] & _ & _ & ->).
    + split; [done |]. intros (m' & [= <-] & _ & Hle & _).
      apply Qgeb_ge in Hle. congruence.
  - split; [done |]. intros (m' & [= <-] & Ht' & _). congruence.
Qed.

Lemma length_omap_le {A B} (f : A → option B) (l : list A) :
  (length (omap f l) ≤ length l)%nat.
Proof.
  induction l as [|a l IH]; csimpl; [done |].
  destruct (f a); csimpl; lia.
Qed.

(** C4.  The keyword test is an unanchored, case-sensitive substring test.
    For each region the matcher takes the first entry of [top_industries],
    in list order, whose name contains the keyword, whatever follows it; the
    region is retained exactly when that entry exists, is a non-empty
    record and has a count of at least [min_companies], and then
    contributes the one cluster built from that entry, so the clusters
    number one per retained region.  With the keyword "반도체" and a
    minimum of 10, a region listing "반도체부품" with 8 and then "반도체"
    with 12 matches the first entry and is rejected. *)
Theorem first_match_first_hit :
  (∀ needle hay : string,
    str_contains needle hay = true ↔
    ∃ pre post, hay = pre ++ needle ++ post) ∧
  str_contains "bio" "Bio" = false ∧
  (∀ kw inds m,
    first_match kw inds = Some m ↔
    ∃ pre post,
      inds = (pre ++ m :: post)%list ∧
      str_contains kw (get (ind_name m) "") = true ∧
      Forall (λ i, str_contains kw (get (ind_name i) "") = false) pre) ∧
  (∀ kw inds,
    first_match kw inds = None ↔
    Forall (λ i, str_contains kw (get (ind_name i) "") = false) inds) ∧
  (∀ kw min_companies r c,
    cluster_of kw min_companies r = Some c ↔
    ∃ m,
      first_match kw (get (reg_top_industries r) []) = Some m ∧
      truthy m = true ∧
      (inject_Z min_companies <= get (ind_count m) 0)%Q ∧
      c = {| region_code := get (reg_code r) "";
             region_name := get (reg_name r) "";
             province := get (reg_province r) "";
             industry_name := get (ind_name m) "";
             company_count := get (ind_count m) 0%Q;
             employee_count := get (reg_employee_count r) 0%Q;
             health_score := get (reg_health_score r) 0%Q |}) ∧
  (∀ regions kw min_companies top_n,
    total_clusters (find_clusters regions kw min_companies top_n)
      = length (filter (λ r, is_Some (cluster_of kw min_companies r)) regions) ∧
    (total_clusters (find_clusters regions kw min_companies top_n)
      ≤ length regions)%nat) ∧
  first_match "반도체"
    [Industry (Some "반도체부품") (Some 8%Q); Industry (Some "반도체") (Some 12%Q)]
    = Some (Industry (Some "반도체부품") (Some 8%Q)) ∧
  cluster_of "반도체" 10
    (Region (Some "41590") (Some "화성시") (Some "경기도") None None None None
       (Some [Industry (Some "반도체부품") (Some 8%Q);
              Industry (Some "반도체") (Some 12%Q)]))
    = None ∧
  total_clusters
    (find_clusters
       [Region (Some "41590") (Some "화성시") (Some "경기도") None None None None
          (Some [Industry (Some "반도체부품") (Some 8%Q);
                 Industry (Some "반도체") (Some 12%Q)])]
       "반도체" 10 10) = 0%nat.
Proof.
  split; [exact str_contains_spec |]. split; [reflexivity |].
  split; [exact first_match_Some |]. split; [exact first_match_None |].
  split; [exact cluster_of_Some |].
  split; [| repeat split; reflexivity].
  intros regions kw min_companies top_n.
  unfold find_clusters. cbn [total_clusters].
  rewrite sorted_desc_length. split; [| apply length_omap_le].
  induction regions as [|r regions IH]; [done |].
  cbn [omap list_omap]. rewrite filter_cons.
  destruct (cluster_of kw min_companies r) eqn:Hc.
  - rewrite decide_True by eauto. simpl. by rewrite IH.
  - rewrite decide_False by (by intros [? ?]). done.
Qed.

(** C6, the claim as stated fails: with [top_n = -1] the slice drops the
    last of two clusters and returns one entry, more than [top_n]. *)
Lemma top_list_exceeds_negative_top_n :
  length (top_clusters
    (find_clusters
       [Region (Some "41590") None None None None None None
          (Some [Industry (Some "반도체") (Some 12%Q)]);
        Region (Some "41270") None None None None None None
          (Some [Industry (Some "반도체") (Some 30%Q)])]
       "반도체" 10 (-1))) = 1%nat ∧
  ¬ (Z.of_nat (length (top_clusters
    (find_clusters
       [Region (Some "41590") None None None None None None
          (Some [Industry (Some "반도체") (Some 12%Q)]);
        Region (Some "41270") None None None None None None
          (Some [Industry (Some "반도체") (Some 30%Q)])]
       "반도체" 10 (-1)))) ≤ -1).
Proof. split; [reflexivity |]. vm_compute. by intros H. Qed.

(** C6, amended.  For every input, [total_clusters] is at least the length
    of the returned top list; when [top_n] is not negative the top list
    holds at most [top_n] entries, namely the smaller of [top_n] and
    [total_clusters]; when [top_n] is negative the slice counts from the
    end and the list holds [total_clusters + top_n] entries, or none. *)
Theorem top_list_bounded :
  ∀ regions kw min_companies top_n,
    let out := find_clusters regions kw min_companies top_n in
    (length (top_clusters out) ≤ total_clusters out)%nat ∧
    (0 ≤ top_n →
       Z.of_nat (length (top_clusters out)) ≤ top_n ∧
       length (top_clusters out)
         = (Z.to_nat top_n `min` total_clusters out)%nat) ∧
    (top_n < 0 →
       Z.of_nat (length (top_clusters out))
         = Z.max 0 (Z.of_nat (total_clusters out) + top_n)).
Proof.
  intros regions kw min_companies top_n. unfold find_clusters. simpl.
  split; [apply slice_to_length_le |]. split.
  - intros Hn. rewrite slice_to_length_nonneg by done. lia.
  - intros Hn. by apply slice_to_length_neg.
Qed.

End ClusterProps.

(** ** Business key validation *)

Section CompanyProps.
Import Company.

Lemma clean_spec (biz_no : string) :
  list_ascii_of_string (clean biz_no)
    = filter (λ c, c ≠ "-"%char) (list_ascii_of_string biz_no).
Proof.
  unfold clean. induction biz_no as [|c s IH]; simpl; [done |].
  rewrite filter_cons. destruct (Ascii.eqb_spec c "-") as [-> | Hne].
  - by rewrite decide_False by (by intros H; apply H).
  - rewrite decide_True by done. simpl. by rewrite IH.
Qed.

(** The tool either returns the validation error at once, or awaits the
    fetch of the cleaned key and then returns something else. *)
Lemma get_company_360_cases (biz_no : string) :
  (py_len (clean biz_no) ≠ 10%nat ∧
   get_company_360 biz_no = Ret (Err BadBizNo)) ∨
  (py_len (clean biz_no) = 10%nat ∧
   ∃ k, get_company_360 biz_no = Await (GetCompany (clean biz_no)) k ∧
        ∀ resp, ∃ r, k resp = Ret r ∧ r ≠ Err BadBizNo).
Proof.
  unfold get_company_360.
  destruct (Nat.eqb_spec (py_len (clean biz_no)) 10) as [Heq | Hne]; simpl.
  - right. split; [done |]. eexists. split; [reflexivity |].
    intros resp. simpl. destruct (status_code resp =? 404); by eexists.
  - by left.
Qed.

(** C8.  [get_company_360] returns the validation error exactly when the
    key, once its hyphens are removed, is not 10 characters long, and then
    it returns at once, without awaiting any fetch; otherwise its first
    action is the fetch of the cleaned key.  "123-456-7890" is cleaned to
    "1234567890" and passes; "12345" fails. *)
Theorem biz_no_validation :
  (∀ biz_no,
    list_ascii_of_string (clean biz_no)
      = filter (λ c, c ≠ "-"%char) (list_ascii_of_string biz_no)) ∧
  (∀ api biz_no,
    (run api (get_company_360 biz_no)).1 = Err BadBizNo ↔
    py_len (clean biz_no) ≠ 10%nat) ∧
  (∀ biz_no,
    py_len (clean biz_no) ≠ 10%nat ↔
    get_company_360 biz_no = Ret (Err BadBizNo)) ∧
  (∀ api biz_no,
    py_len (clean biz_no) ≠ 10%nat ↔
    run api (get_company_360 biz_no) = (Err BadBizNo, [])) ∧
  (∀ api biz_no,
    py_len (clean biz_no) = 10%nat ↔
    (run api (get_company_360 biz_no)).2
      = ["/api/companies/" ++ clean biz_no]) ∧
  clean "123-456-7890" = "1234567890" ∧
  py_len (clean "123-456-7890") = 10%nat ∧
  (∃ k, get_company_360 "123-456-7890" = Await (GetCompany "1234567890") k) ∧
  py_len (clean "12345") = 5%nat ∧
  get_company_360 "12345" = Ret (Err BadBizNo).
Proof.
  split; [exact clean_spec |].
  split; [| split; [| split; [| split]]].
  - intros api biz_no.
    destruct (get_company_360_cases biz_no)
      as [[Hn ->] | (He & k & -> & Hk)]; [done |].
    simpl. destruct (Hk (api _ (GetCompany (clean biz_no)))) as (r & -> & Hr).
    simpl. split; [done | by intros Hn].
  - intros biz_no.
    destruct (get_company_360_cases biz_no)
      as [[Hn ->] | (He & k & -> & Hk)]; [done |].
    split; [by intros Hn | by intros H].
  - intros api biz_no.
    destruct (get_company_360_cases biz_no)
      as [[Hn ->] | (He & k & -> & Hk)]; [done |].
    simpl. destruct (Hk (api _ (GetCompany (clean biz_no)))) as (r & -> & Hr).
    simpl. split; [by intros Hn | by intros H].
  - intros api biz_no.
    destruct (get_company_360_cases biz_no)
      as [[Hn ->] | (He & k & -> & Hk)]; [by split; intros H |].
    simpl. destruct (Hk (api _ (GetCompany (clean biz_no)))) as (r & -> & Hr).
    done.
  - repeat split; try reflexivity. by eexists.
Qed.

End CompanyProps.

(** ** Ranking *)

Section CompareProps.
Import Compare.

Lemma annotate_length k i refs (h : store) :
  length (annotate k i refs h) = length h.
Proof.
  revert i h. induction refs as [|r refs IH]; intros i h; simpl; [done |].
  by rewrite IH, length_alter.
Qed.

Lemma annotate_lookup_notin k i refs (h : store) (r : nat) :
  r ∉ refs → annotate k i refs h !! r = h !! r.
Proof.
  revert i h. induction refs as [|r0 refs IH]; intros i h Hr; simpl; [done |].
  apply not_elem_of_cons in Hr as [Hne Hr].
  rewrite IH by done. by apply list_lookup_alter_ne.
Qed.

(** An annotation leaves every other key as it was. *)
Lemma field_annotate_ne k k' i refs (h : store) (r : nat) :
  k ≠ k' → field (annotate k i refs h) k' r = field h k' r.
Proof.
  intros Hk. revert i h.
  induction refs as [|r0 refs IH]; intros i h; simpl; [done |].
  rewrite IH. unfold field.
  destruct (decide (r0 = r)) as [-> | Hne].
  - rewrite list_lookup_alter_eq. destruct (h !! r) as [d|]; simpl; [| done].
    by apply lookup_insert_ne.
  - by rewrite list_lookup_alter_ne.
Qed.

(** The object at position [j] of the enumerated list gets [i + j + 1]. *)
Lemma field_annotate_eq k i refs (h : store) (j r : nat) :
  NoDup refs → refs !! j = Some r → (r < length h)%nat →
  field (annotate k i refs h) k r = Some (VInt (Z.of_nat (i + j) + 1)).
Proof.
  revert i h j. induction refs as [|r0 refs IH]; intros i h j Hnd Hj Hr.
  - by rewrite lookup_nil in Hj.
  - apply NoDup_cons in Hnd as [Hr0 Hnd]. simpl.
    destruct j as [|j]; simpl in Hj.
    + injection Hj as ->. unfold field.
      rewrite annotate_lookup_notin by done.
      rewrite list_lookup_alter_eq.
      destruct (lookup_lt_is_Some_2 h r Hr) as [d ->]. simpl.
      rewrite lookup_insert_eq. do 2 f_equal. lia.
    + rewrite (IH (S i) _ j) by (by rewrite ?length_alter).
      do 2 f_equal. lia.
Qed.

Lemma order_of_perm rows metric : order_of rows metric ≡ₚ seq 0 (length rows).
Proof. apply sorted_desc_perm. Qed.

Lemma order_of_lt rows metric k r :
  order_of rows metric !! k = Some r → (r < length rows)%nat.
Proof.
  intros Hk. apply list_elem_of_lookup_2 in Hk.
  rewrite order_of_perm in Hk. apply elem_of_seq in Hk. lia.
Qed.

(** One annotation pass over a store whose sort keys are those of [rows]. *)
Lemma rank_step (rows h : store) (K metric : string) :
  length h = length rows →
  (∀ r, metric_key h metric r = metric_key rows metric r) →
  let h' :=
    annotate K 0 (sorted_desc (metric_key h metric) (seq 0 (length rows))) h in
  length h' = length rows ∧
  (∀ k r, order_of rows metric !! k = Some r →
          field h' K r = Some (VInt (Z.of_nat k + 1))) ∧
  (∀ k' r, K ≠ k' → field h' k' r = field h k' r).
Proof.
  intros Hlen Hkey h'. subst h'.
  rewrite (sorted_desc_ext _ _ _ Hkey). fold (order_of rows metric).
  split; [by rewrite annotate_length |]. split.
  - intros k r Hk.
    rewrite (field_annotate_eq K 0 _ h k r); [done | | done |].
    + rewrite order_of_perm. apply NoDup_seq.
    + rewrite Hlen. by eapply order_of_lt.
  - intros k' r Hne. by apply field_annotate_ne.
Qed.

Lemma metric_key_field (h h' : store) (metric : string) :
  (∀ r, field h' metric r = field h metric r) →
  ∀ r, metric_key h' metric r = metric_key h metric r.
Proof. intros H r. unfold metric_key. by rewrite H. Qed.

Ltac key_ne := by (intros; discriminate).

(** The store the ranking leaves: the list [ranked], every rank key of
    every object, and every other key untouched. *)
Lemma rank_all_spec (rows : store) :
  let n := length rows in
  let ranked := (rank_all (seq 0 n) rows).1 in
  let h := (rank_all (seq 0 n) rows).2 in
  ranked = order_of rows "health_score" ∧
  length h = n ∧
  (∀ k r, order_of rows "health_score" !! k = Some r →
          field h "health_rank" r = Some (VInt (Z.of_nat k + 1))) ∧
  Forall (λ metric,
    ∀ k r, order_of rows metric !! k = Some r →
           field h (metric ++ "_rank") r = Some (VInt (Z.of_nat k + 1)))
    metrics ∧
  (∀ key r, key ∉ rank_keys → field h key r = field rows key r).
Proof.
  intros n ranked h. subst ranked h n. unfold rank_all. cbn [fst snd].
  split; [done |].
  unfold metrics. cbn [foldl]. unfold rank_by.
  change ("health_score" ++ "_rank") with "health_score_rank".
  change ("company_count" ++ "_rank") with "company_count_rank".
  change ("employee_count" ++ "_rank") with "employee_count_rank".
  change ("growth_rate" ++ "_rank") with "growth_rate_rank".
  destruct (rank_step rows rows "health_rank" "health_score" eq_refl
              (λ _, eq_refl)) as (L1 & R1 & P1).
  set (h1 := annotate "health_rank" _ _ _) in *.
  destruct (rank_step rows h1 "health_score_rank" "health_score" L1)
    as (L2 & R2 & P2).
  { apply metric_key_field. intros r. apply P1. key_ne. }
  set (h2 := annotate "health_score_rank" _ _ _) in *.
  destruct (rank_step rows h2 "company_count_rank" "company_count" L2)
    as (L3 & R3 & P3).
  { apply metric_key_field. intros r. rewrite P2, P1; [done | key_ne ..]. }
  set (h3 := annotate "company_count_rank" _ _ _) in *.
  destruct (rank_step rows h3 "employee_count_rank" "employee_count" L3)
    as (L4 & R4 & P4).
  { apply metric_key_field. intros r.
    rewrite P3, P2, P1; [done | key_ne ..]. }
  set (h4 := annotate "employee_count_rank" _ _ _) in *.
  destruct (rank_step rows h4 "growth_rate_rank" "growth_rate" L4)
    as (L5 & R5 & P5).
  { apply metric_key_field. intros r.
    rewrite P4, P3, P2, P1; [done | key_ne ..]. }
  set (h5 := annotate "growth_rate_rank" _ _ _) in *.
  split; [done |]. split.
  { intros k r Hk. rewrite P5, P4, P3, P2; [by apply R1 | key_ne ..]. }
  split.
  { repeat constructor; intros k r Hk.
    - rewrite P5, P4, P3; [by apply R2 | key_ne ..].
    - rewrite P5, P4; [by apply R3 | key_ne ..].
    - rewrite P5; [by apply R4 | key_ne ..].
    - by apply R5. }
  intros key r Hkey. unfold rank_keys, metrics in Hkey. cbn in Hkey.
  rewrite !not_elem_of_cons in Hkey.
  destruct Hkey as (K1 & K2 & K3 & K4 & K5 & _).
  rewrite P5, P4, P3, P2, P1; done.
Qed.

Lemma seq_sorted_lt (j n : nat) : StronglySorted lt (seq j n).
Proof.
  revert j. induction n as [|n IH]; intros j; simpl; constructor; [done |].
  apply Forall_forall. intros x Hx. apply elem_of_seq in Hx. lia.
Qed.

Lemma order_of_stable rows metric :
  StronglySorted (stable_order (metric_key rows metric) lt)
    (order_of rows metric).
Proof. apply sorted_desc_stable, seq_sorted_lt. Qed.

(** Numbering the positions of a stably sorted order is a stable ranking. *)
Lemma stable_ranking_of_order (key : nat → Q) (n : nat) (order : list nat)
    (rank : nat → option value) :
  order ≡ₚ seq 0 n →
  StronglySorted (stable_order key lt) order →
  (∀ k r, order !! k = Some r → rank r = Some (VInt (Z.of_nat k + 1))) →
  stable_ranking key n rank.
Proof.
  intros Hperm Hs Hrank.
  assert (Hnd : NoDup order) by (rewrite Hperm; apply NoDup_seq).
  assert (Hpos : ∀ i, (i < n)%nat →
            ∃ k, order !! k = Some i ∧ (k < n)%nat ∧
                 rank i = Some (VInt (Z.of_nat k + 1))).
  { intros i Hi. assert (Hin : i ∈ order).
    { rewrite Hperm. apply elem_of_seq. lia. }
    apply list_elem_of_lookup_1 in Hin as [k Hk]. exists k.
    split; [done |]. split; [| by apply Hrank].
    apply lookup_lt_Some in Hk. rewrite Hperm, length_seq in Hk. done. }
  repeat split.
  - intros i Hi. destruct (Hpos i Hi) as (k & _ & Hk & ->).
    eexists. split; [done | lia].
  - intros i j Hi Hj Heq.
    destruct (Hpos i Hi) as (ki & Hki & _ & Ri).
    destruct (Hpos j Hj) as (kj & Hkj & _ & Rj).
    rewrite Ri, Rj in Heq. injection Heq as Heq.
    assert (ki = kj) as -> by lia. congruence.
  - intros i j ki' kj' Hi Hj Ri' Rj' Hlt.
    destruct (Hpos i Hi) as (ki & Hki & _ & Ri).
    destruct (Hpos j Hj) as (kj & Hkj & _ & Rj).
    rewrite Ri in Ri'. rewrite Rj in Rj'.
    injection Ri' as <-. injection Rj' as <-.
    assert (Hpp : (ki < kj)%nat) by lia.
    destruct (StronglySorted_lookup_lt _ _ _ _ _ _ Hs Hki Hkj Hpp)
      as [Hk | [Hk _]]; lra.
  - intros i j ki' kj' Hij Hj Hkey Ri' Rj'.
    assert (Hi : (i < n)%nat) by lia.
    destruct (Hpos i Hi) as (ki & Hki & _ & Ri).
    destruct (Hpos j Hj) as (kj & Hkj & _ & Rj).
    rewrite Ri in Ri'. rewrite Rj in Rj'.
    injection Ri' as <-. injection Rj' as <-.
    destruct (Nat.lt_trichotomy ki kj) as [Hlt | [-> | Hgt]]; [lia | |].
    + rewrite Hki in Hkj. injection Hkj as ->. lia.
    + destruct (StronglySorted_lookup_lt _ _ _ _ _ _ Hs Hkj Hki Hgt)
        as [Hk | [_ Hk]]; [lra | lia].
Qed.

(** ** Running [compare_regions] *)

Lemma run_bind {A B} (api : api_t) (p : prog A) (f : A → prog B) :
  run api (bind p f) =
    ((run api (f (run api p).1)).1,
     ((run api p).2 ++ (run api (f (run api p).1)).2)%list).
Proof.
  induction p as [a | C rq k IH]; simpl.
  - by destruct (run api (f a)).
  - rewrite IH. by destruct (run api (k (api C rq))).
Qed.

Lemma fetch_rows_run (api : api_t) (codes : list string) (acc : list row) :
  run api (fetch_rows codes acc) =
    ((acc ++ ((λ code, new_row code (body (api _ (GetRegion code))))
               <$> fetched api codes))%list,
     (λ code, "/api/regions/" ++ code) <$> codes).
Proof.
  revert acc. induction codes as [|code codes IH]; intros acc; simpl.
  - by rewrite app_nil_r.
  - unfold fetched. rewrite filter_cons.
    destruct (Z.eqb_spec (status_code (api _ (GetRegion code))) 200)
      as [Heq | Hne].
    + rewrite decide_True by done. rewrite IH. simpl.
      by rewrite <- app_assoc.
    + rewrite decide_False by done. by rewrite IH.
Qed.

Lemma lookup_total_field (h : store) (key : string) (r : nat) :
  (r < length h)%nat → (h !!! r) !! key = field h key r.
Proof.
  intros Hr. unfold field.
  destruct (lookup_lt_is_Some_2 h r Hr) as [d Hd].
  by rewrite (list_lookup_total_correct h r d Hd), Hd.
Qed.

Lemma fields_seq (rows : store) (key : string) :
  field rows key <$> seq 0 (length rows) = (λ d, d !! key) <$> rows.
Proof.
  apply list_eq. intros i. rewrite !list_lookup_fmap.
  destruct (decide (i < length rows)%nat) as [Hi | Hi].
  - rewrite lookup_seq_lt by done. simpl. unfold field.
    by destruct (lookup_lt_is_Some_2 rows i Hi) as [d ->].
  - rewrite lookup_seq_ge by lia. by rewrite lookup_ge_None_2 by lia.
Qed.

(** The output of the ranking, read through the store. *)
Lemma rank_rows_spec (rows : store) :
  let h := (rank_all (seq 0 (length rows)) rows).2 in
  comparison (rank_rows rows) = (λ r, h !!! r) <$> order_of rows "health_score" ∧
  count (rank_rows rows) = length rows ∧
  (∀ key, (λ d, d !! key) <$> comparison (rank_rows rows)
          = field h key <$> order_of rows "health_score").
Proof.
  intros h. subst h.
  destruct (rank_all_spec rows) as (Hr & Hl & _).
  unfold rank_rows.
  destruct (rank_all (seq 0 (length rows)) rows) as [ranked h] eqn:Hra.
  cbn [fst snd comparison count] in *. subst ranked.
  split; [done |]. split.
  { unfold order_of. by rewrite sorted_desc_length, length_seq. }
  intros key. rewrite <- list_fmap_compose. apply list_fmap_ext.
  intros k r Hk. simpl. apply lookup_total_field.
  rewrite Hl. by eapply order_of_lt.
Qed.

(** C10.  In every record of the comparison, [health_rank] and
    [health_score_rank] hold the same rank, the position of the record in
    the comparison counted from 1; the same holds of what the tool
    returns. *)
Theorem health_rank_agrees :
  (∀ rows : store,
    ∀ k d, comparison (rank_rows rows) !! k = Some d →
      d !! "health_rank" = Some (VInt (Z.of_nat k + 1)) ∧
      d !! "health_score_rank" = Some (VInt (Z.of_nat k + 1))) ∧
  (∀ rows : store,
    Forall (λ d, is_Some (d !! "health_rank") ∧
                 d !! "health_rank" = d !! "health_score_rank")
      (comparison (rank_rows rows))) ∧
  (∀ api region_codes,
    match (run api (compare_regions region_codes)).1 with
    | Ok out =>
        Forall (λ d, is_Some (d !! "health_rank") ∧
                     d !! "health_rank" = d !! "health_score_rank")
          (comparison out)
    | Err _ => True
    end).
Proof.
  assert (H1 : ∀ rows : store,
    ∀ k d, comparison (rank_rows rows) !! k = Some d →
      d !! "health_rank" = Some (VInt (Z.of_nat k + 1)) ∧
      d !! "health_score_rank" = Some (VInt (Z.of_nat k + 1))).
  { intros rows k d Hd.
    destruct (rank_rows_spec rows) as (_ & _ & Hf).
    destruct (rank_all_spec rows) as (_ & _ & Hp & Hm & _).
    apply Forall_cons in Hm as [Hm _].
    change ("health_score" ++ "_rank") with "health_score_rank" in Hm.
    pose proof (Hf "health_rank") as Fp.
    pose proof (Hf "health_score_rank") as Fm.
    apply (f_equal (.!! k)) in Fp, Fm.
    rewrite !list_lookup_fmap, Hd in Fp, Fm.
    destruct (order_of rows "health_score" !! k) as [r|] eqn:Hr; [| done].
    simpl in Fp, Fm. injection Fp as ->. injection Fm as ->.
    split; [by apply Hp | by apply Hm]. }
  assert (H2 : ∀ rows : store,
    Forall (λ d, is_Some (d !! "health_rank") ∧
                 d !! "health_rank" = d !! "health_score_rank")
      (comparison (rank_rows rows))).
  { intros rows. apply Forall_lookup. intros k d Hd.
    destruct (H1 rows k d Hd) as [-> ->]. by split; [eexists |]. }
  split; [exact H1 |]. split; [exact H2 |].
  intros api region_codes. unfold compare_regions.
  destruct (5 <? length region_codes)%nat; [done |].
  rewrite run_bind. cbn [fst].
  destruct (run api (fetch_rows region_codes [])).1 as [|row rows]; [done |].
  apply H2.
Qed.

(** C5.  The ranking is stable.  On every list of fetched records, the
    primary rank and the rank of each metric number the records from 1 to
    N by descending value of the sorted metric, records with equal values
    keeping their input order; the comparison lists the records in primary
    rank order, its k-th record carrying rank k, with the fetched fields
    unchanged.  Regions A (80), B (80), C (60), in that order, get the
    ranks A:1, B:2, C:3. *)
Theorem ranking_is_stable :
  (∀ rows : store,
    let n := length rows in
    let h := (rank_all (seq 0 n) rows).2 in
    stable_ranking (metric_key rows "health_score") n (field h "health_rank") ∧
    Forall (λ metric,
      stable_ranking (metric_key rows metric) n (field h (metric ++ "_rank")))
      metrics ∧
    (∃ order,
      order ≡ₚ seq 0 n ∧
      StronglySorted (stable_order (metric_key rows "health_score") lt) order ∧
      comparison (rank_rows rows) = (λ r, h !!! r) <$> order ∧
      (∀ k r, order !! k = Some r →
         field h "health_rank" r = Some (VInt (Z.of_nat k + 1))) ∧
      (∀ key r, key ∉ rank_keys → field h key r = field rows key r))) ∧
  (∀ (rows : store) i code data,
    rows !! i = Some (new_row code data) →
    metric_key rows "health_score" i = get (reg_health_score data) 0%Q ∧
    metric_key rows "company_count" i = get (reg_company_count data) 0%Q ∧
    metric_key rows "employee_count" i = get (reg_employee_count data) 0%Q ∧
    metric_key rows "growth_rate" i = get (reg_growth_rate data) 0%Q) ∧
  match (run (api_of_regions [("A", scored "A" 80); ("B", scored "B" 80);
                              ("C", scored "C" 60)])
           (compare_regions ["A"; "B"; "C"])).1 with
  | Ok out =>
      (λ d, (d !! "name", d !! "health_rank", d !! "health_score_rank"))
        <$> comparison out
      = [(Some (VStr "A"), Some (VInt 1), Some (VInt 1));
         (Some (VStr "B"), Some (VInt 2), Some (VInt 2));
         (Some (VStr "C"), Some (VInt 3), Some (VInt 3))] ∧
      count out = 3%nat ∧
      best_health out = Some (VStr "A")
  | Err _ => False
  end.
Proof.
  split; [| split; [| vm_compute; repeat split; reflexivity]].
  2: { intros rows i code data Hi. unfold metric_key, field.
       rewrite Hi. simpl. unfold new_row.
       repeat split;
         rewrite ?lookup_insert_ne by discriminate;
         by rewrite lookup_insert_eq. }
  intros rows n h. subst n h.
  destruct (rank_all_spec rows) as (_ & _ & Hp & Hm & Hk).
  destruct (rank_rows_spec rows) as (Hc & _ & _).
  split; [| split].
  - eapply stable_ranking_of_order;
      [apply order_of_perm | apply order_of_stable | exact Hp].
  - eapply Forall_impl; [exact Hm |]. intros metric Hr. simpl in Hr.
    eapply stable_ranking_of_order;
      [apply order_of_perm | apply order_of_stable | exact Hr].
  - exists (order_of rows "health_score").
    split; [apply order_of_perm |]. split; [apply order_of_stable |].
    by repeat split.
Qed.

Lemma new_row_region_code (code : string) (data : region) :
  new_row code data !! "region_code" = Some (VStr code).
Proof.
  unfold new_row. rewrite !lookup_insert_ne by discriminate.
  apply lookup_insert_eq.
Qed.

(** The rows built by the tool hold a number under every metric. *)
Lemma new_row_metric (code : string) (data : region) :
  Forall (λ metric, ∃ q, new_row code data !! metric = Some (VNum q)) metrics.
Proof.
  unfold new_row, metrics. repeat constructor; eexists;
    rewrite ?lookup_insert_ne by discriminate; apply lookup_insert_eq.
Qed.

(** The run in which every fetch is answered is the run of [run]. *)
Lemma run_x_answering {A} (api : api_t) (p : prog A) :
  run_x (answering api) p = (Some (run api p).1, (run api p).2).
Proof.
  induction p as [a | B rq k IH]; simpl; [done |].
  unfold answering at 1. rewrite IH. by destruct (run api (k (api B rq))).
Qed.

(** C7 does not hold as stated: a fetch that is unavailable by raising is
    not dropped.  With the fetch of "X" timing out, the comparison of "A",
    "X", "C" raises after the second request: "C" is never fetched and
    nothing is returned, though "A" was answered with 200. *)
Lemma failed_fetch_aborts :
  run_x (raising_on ["/api/regions/X"]
           (api_of_regions [("A", scored "A" 80); ("C", scored "C" 60)]))
    (compare_regions ["A"; "X"; "C"])
  = (None, ["/api/regions/A"; "/api/regions/X"]).
Proof. by vm_compute. Qed.

(** C7, amended: every fetch being answered.  A call with more than five
    codes is rejected before any fetch.  Otherwise every code is fetched,
    in order, whatever the earlier fetches answered; a code whose fetch is
    answered with a status other than 200 is dropped, and the comparison
    holds exactly the records of the other codes.  When no fetch is
    answered with 200 the tool returns the empty-result error, so that a
    comparison it returns is never empty. *)
Theorem failed_fetch_dropped :
  (∀ api region_codes,
    let ok := fetched api region_codes in
    let res := run api (compare_regions region_codes) in
    ((5 < length region_codes)%nat → res = (Err TooManyRegions, [])) ∧
    ((length region_codes ≤ 5)%nat →
      res.2 = (λ code, "/api/regions/" ++ code) <$> region_codes ∧
      (ok = [] → res.1 = Err NoValidRegion) ∧
      (ok ≠ [] → ∃ out,
         res.1 = Ok out ∧
         count out = length ok ∧
         length (comparison out) = length ok ∧
         (λ d, d !! "region_code") <$> comparison out
           ≡ₚ (λ code, Some (VStr code)) <$> ok)) ∧
    match res.1 with
    | Ok out => comparison out ≠ [] ∧ ok ≠ []
    | Err e => e = TooManyRegions ∨ (e = NoValidRegion ∧ ok = [])
    end) ∧
  match (run (api_of_regions [("A", scored "A" 80); ("C", scored "C" 60)])
           (compare_regions ["A"; "X"; "C"])) with
  | (Ok out, trace) =>
      (λ d, d !! "region_code") <$> comparison out
        = [Some (VStr "A"); Some (VStr "C")] ∧
      trace = ["/api/regions/A"; "/api/regions/X"; "/api/regions/C"]
  | (Err _, _) => False
  end ∧
  run (api_of_regions [("A", scored "A" 80)]) (compare_regions ["X"; "Y"])
    = (Err NoValidRegion, ["/api/regions/X"; "/api/regions/Y"]).
Proof.
  split; [| vm_compute; repeat split; reflexivity].
  intros api region_codes ok res.
  assert (Hcases :
    ((5 < length region_codes)%nat ∧ res = (Err TooManyRegions, [])) ∨
    ((length region_codes ≤ 5)%nat ∧
     res.2 = (λ code, "/api/regions/" ++ code) <$> region_codes ∧
     ((ok = [] ∧ res.1 = Err NoValidRegion) ∨
      (ok ≠ [] ∧ ∃ out,
         res.1 = Ok out ∧
         count out = length ok ∧
         length (comparison out) = length ok ∧
         (λ d, d !! "region_code") <$> comparison out
           ≡ₚ (λ code, Some (VStr code)) <$> ok)))).
  { subst res. unfold compare_regions.
    destruct (Nat.ltb_spec 5 (length region_codes)) as [Hgt | Hle];
      [by left | right].
    split; [done |]. rewrite run_bind, fetch_rows_run. cbn [fst snd].
    rewrite app_nil_l. change (fetched api region_codes) with ok.
    destruct (decide (ok = [])) as [Hnil | Hne].
    { rewrite Hnil. simpl. split; [by rewrite app_nil_r |]. by left. }
    set (rows := (λ code, new_row code (body (api region (GetRegion code))))
                   <$> ok).
    assert (Hlen : length rows = length ok) by apply length_fmap.
    assert (Hm : ∀ l : list row, l ≠ [] →
      match l with
      | [] => Ret (Err NoValidRegion)
      | _ :: _ => Ret (Ok (rank_rows l))
      end = Ret (Ok (rank_rows l))) by (by intros [|? ?]).
    rewrite Hm by (intros E; rewrite E in Hlen; by destruct ok).
    cbn [run fst snd]. split; [by rewrite app_nil_r |]. right.
    split; [done |]. exists (rank_rows rows). split; [done |].
    destruct (rank_rows_spec rows) as (Hc & Hn & Hf).
    destruct (rank_all_spec rows) as (_ & _ & _ & _ & Hk).
    split; [by rewrite Hn |].
    split.
    { rewrite Hc, length_fmap. unfold order_of.
      by rewrite sorted_desc_length, length_seq. }
    rewrite Hf.
    rewrite (list_fmap_ext _ (field rows "region_code")).
    2: { intros k r _. apply Hk. unfold rank_keys, metrics. cbn.
         rewrite !not_elem_of_cons. repeat split; try discriminate.
         apply not_elem_of_nil. }
    rewrite order_of_perm, fields_seq. subst rows.
    rewrite <- list_fmap_compose.
    erewrite list_fmap_ext; [reflexivity |].
    intros k c _. simpl. apply new_row_region_code. }
  split; [| split].
  - intros Hgt. destruct Hcases as [[_ H] | [Hle _]]; [done | lia].
  - intros Hle. destruct Hcases as [[Hgt _] | (_ & Ht & Hr)]; [lia |].
    split; [done |]. split.
    + intros Hnil. destruct Hr as [[_ H] | [Hne _]]; done.
    + intros Hne. destruct Hr as [[Hnil _] | [_ H]]; done.
  - destruct Hcases as [[_ ->] | (_ & _ & [[Hnil ->] | (Hne & out & -> & Hc & Hl & _)])].
    + by left.
    + by right.
    + split; [| done]. intros Hcomp. rewrite Hcomp in Hl.
      destruct ok; [done | discriminate].
Qed.

End CompareProps.

(** * Further properties *)

(** ** [get_region_health]: requests and defaults *)

Section HealthMore.
Import Health.

(** X1.  [get_region_health] returns the not-found error exactly when the
    region fetch is answered with status 404, and then the health endpoint
    is never requested; it returns no other error.  Whenever it returns a
    report, the region fetch was answered with another status and the
    region and the health endpoints were requested, once each and in that
    order.  When the region fetch raises, the tool raises after that one
    request. *)
Theorem region_health_requests :
  ∀ (xapi : xapi_t) (code : string),
    (run_x xapi (get_region_health code)
       = (Some (Err (RegionNotFound code)), ["/api/regions/" ++ code]) ↔
     ∃ resp, xapi _ (GetRegion code) = Some resp ∧ status_code resp = 404) ∧
    (∀ e trace,
       run_x xapi (get_region_health code) = (Some (Err e), trace) →
       e = RegionNotFound code ∧ trace = ["/api/regions/" ++ code]) ∧
    (∀ r trace,
       run_x xapi (get_region_health code) = (Some (Ok r), trace) →
       trace = ["/api/regions/" ++ code; "/api/health/" ++ code] ∧
       (∃ resp, xapi _ (GetRegion code) = Some resp ∧
                status_code resp ≠ 404) ∧
       is_Some (xapi _ (GetHealth code))) ∧
    (xapi _ (GetRegion code) = None →
     run_x xapi (get_region_health code)
       = (None, ["/api/regions/" ++ code])).
Proof.
  intros xapi code. unfold get_region_health. simpl.
  destruct (xapi _ (GetRegion code)) as [resp|]; simpl.
  - destruct (Z.eqb_spec (status_code resp) 404) as [H404 | H404]; simpl.
    + split; [split; [by eexists | done] |].
      split; [by intros e trace [= <- <-] |]. split; [| done].
      intros r trace H. discriminate.
    + destruct (xapi _ (GetHealth code)) as [hresp|]; simpl.
      * split.
        { split; [intros H; discriminate |].
          intros (resp' & [= <-] & H). done. }
        split; [intros e trace H; discriminate |]. split; [| done].
        intros r trace [= <- <-]. split; [done |].
        split; [by eexists | by eexists].
      * split.
        { split; [intros H; discriminate |].
          intros (resp' & [= <-] & H). done. }
        split; [intros e trace H; discriminate |]. split; [| done].
        intros r trace H. discriminate.
  - split; [split; [intros H; discriminate | by intros (resp' & H & _)] |].
    split; [intros e trace H; discriminate |].
    split; [intros r trace H; discriminate | done].
Qed.



End HealthMore.

(** ** The stable sort, element by element *)

(** The elements with a given key stand in the output as in the input. *)
Lemma insert_desc_filter {A} (key : A → Q) (q : Q) (x : A) (l : list A) :
  filter (λ a, Qeq_bool (key a) q = true) (insert_desc key x l)
    = filter (λ a, Qeq_bool (key a) q = true) (x :: l).
Proof.
  induction l as [|y l IH]; simpl; [done |].
  case_Qltb (key x) (key y); [| done].
  rewrite filter_cons, IH, !filter_cons.
  destruct (decide (Qeq_bool (key y) q = true)) as [Hy | Hy];
    destruct (decide (Qeq_bool (key x) q = true)) as [Hx | Hx]; try done.
  apply Qeq_bool_iff in Hx, Hy. lra.
Qed.

Lemma sorted_desc_filter {A} (key : A → Q) (q : Q) (l : list A) :
  filter (λ a, Qeq_bool (key a) q = true) (sorted_desc key l)
    = filter (λ a, Qeq_bool (key a) q = true) l.
Proof.
  induction l as [|x l IH]; simpl; [done |].
  by rewrite insert_desc_filter, !filter_cons, IH.
Qed.

(** In a descending list the elements at or above a threshold come first. *)
Lemma desc_threshold_split {A} (key : A → Q) (q : Q) (l : list A) :
  StronglySorted (desc key) l →
  l = (filter (λ a, Qle_bool q (key a) = true) l
       ++ filter (λ a, ¬ Qle_bool q (key a) = true) l)%list.
Proof.
  induction 1 as [|x l Hs IH Hall]; [done |].
  rewrite !filter_cons.
  destruct (decide (Qle_bool q (key x) = true)) as [Hx | Hx].
  - rewrite decide_False by (by intros H; apply H). simpl. by rewrite <- IH.
  - rewrite decide_True by done.
    assert (Hnone : filter (λ a, Qle_bool q (key a) = true) l = []).
    { destruct (filter (λ a, Qle_bool q (key a) = true) l)
        as [|y ys] eqn:E; [done |].
      assert (Hy : y ∈ filter (λ a, Qle_bool q (key a) = true) l)
        by (rewrite E; left).
      apply list_elem_of_filter in Hy as [Hq Hy].
      rewrite Forall_forall in Hall. specialize (Hall y Hy).
      apply Qle_bool_iff in Hq. unfold desc in Hall.
      exfalso. apply Hx. apply Qle_bool_iff. lra. }
    rewrite Hnone in IH |- *. simpl in *. by rewrite <- IH.
Qed.

(** ** [compare_regions]: the records of the comparison *)

Section CompareMore.
Import Compare.

Lemma new_row_keys (code : string) (data : region) (key : string) :
  is_Some (new_row code data !! key) ↔
  key ∈ ["region_code"; "name"; "health_score"; "company_count";
         "employee_count"; "growth_rate"].
Proof.
  unfold new_row. rewrite !lookup_insert_is_Some, lookup_empty.
  rewrite !elem_of_cons, elem_of_nil. split.
  - intros H. repeat (destruct H as [<- | [_ H]]; [tauto |]).
    by destruct H.
  - intros H.
    destruct (decide ("growth_rate" = key)); [tauto | right; split; [done |]].
    destruct (decide ("employee_count" = key)); [tauto | right; split; [done |]].
    destruct (decide ("company_count" = key)); [tauto | right; split; [done |]].
    destruct (decide ("health_score" = key)); [tauto | right; split; [done |]].
    destruct (decide ("name" = key)); [tauto | right; split; [done |]].
    destruct (decide ("region_code" = key)); [tauto |].
    exfalso. intuition congruence.
Qed.

Lemma order_of_position (rows : store) (metric : string) (r : nat) :
  (r < length rows)%nat → ∃ k, order_of rows metric !! k = Some r.
Proof.
  intros Hr. apply list_elem_of_lookup_1.
  rewrite order_of_perm. apply elem_of_seq. lia.
Qed.

Lemma rank_rows_keys (rows : store) (keys : list string) :
  Forall (λ d, ∀ key, is_Some (d !! key) ↔ key ∈ keys) rows →
  Forall (λ d, ∀ key, is_Some (d !! key) ↔ key ∈ (keys ++ rank_keys)%list)
    (comparison (rank_rows rows)).
Proof.
  intros Hrows.
  destruct (rank_rows_spec rows) as (-> & _ & _).
  destruct (rank_all_spec rows) as (_ & Hl & Hp & Hm & Hk).
  apply Forall_fmap, Forall_forall. intros r Hr key. unfold compose.
  assert (Hlt : (r < length rows)%nat).
  { apply list_elem_of_lookup_1 in Hr as [k Hr]. by eapply order_of_lt. }
  rewrite lookup_total_field by by rewrite Hl.
  rewrite elem_of_app.
  destruct (decide (key ∈ rank_keys)) as [Hin | Hout].
  - split; [by right |]. intros _.
    unfold rank_keys, metrics in Hin. cbn in Hin.
    unfold metrics in Hm. rewrite !Forall_cons in Hm.
    destruct Hm as (M1 & M2 & M3 & M4 & _).
    rewrite !elem_of_cons, elem_of_nil in Hin.
    destruct Hin as [-> | [-> | [-> | [-> | [-> | []]]]]].
    + destruct (order_of_position rows "health_score" r Hlt) as [k Hk'].
      rewrite (Hp k r Hk'). by eexists.
    + destruct (order_of_position rows "health_score" r Hlt) as [k Hk'].
      rewrite (M1 k r Hk'). by eexists.
    + destruct (order_of_position rows "company_count" r Hlt) as [k Hk'].
      rewrite (M2 k r Hk'). by eexists.
    + destruct (order_of_position rows "employee_count" r Hlt) as [k Hk'].
      rewrite (M3 k r Hk'). by eexists.
    + destruct (order_of_position rows "growth_rate" r Hlt) as [k Hk'].
      rewrite (M4 k r Hk'). by eexists.
  - rewrite Hk by done. unfold field.
    destruct (lookup_lt_is_Some_2 rows r Hlt) as [d Hd]. rewrite Hd. simpl.
    rewrite Forall_forall in Hrows.
    rewrite (Hrows d) by by eapply list_elem_of_lookup_2. tauto.
Qed.

(** What the tool returns, by the rows of the successful fetches. *)
Lemma compare_regions_result (api : api_t) (region_codes : list string) :
  (run api (compare_regions region_codes)).1 =
    if (5 <? length region_codes)%nat then Err TooManyRegions
    else
      match (λ code, new_row code (body (api _ (GetRegion code))))
              <$> fetched api region_codes with
      | [] => Err NoValidRegion
      | row :: rows => Ok (rank_rows (row :: rows))
      end.
Proof.
  unfold compare_regions. destruct (5 <? length region_codes)%nat; [done |].
  rewrite run_bind, fetch_rows_run. cbn [fst snd]. rewrite app_nil_l.
  by destruct (_ <$> fetched api region_codes).
Qed.

(** X3.  Every record of a returned comparison holds exactly eleven keys:
    the six fields copied from the fetch and the five ranks. *)
Theorem comparison_record_keys :
  ∀ (api : api_t) (region_codes : list string),
    match (run api (compare_regions region_codes)).1 with
    | Ok out =>
        Forall (λ d, ∀ key,
          is_Some (d !! key) ↔
          key ∈ ["region_code"; "name"; "health_score"; "company_count";
                 "employee_count"; "growth_rate"; "health_rank";
                 "health_score_rank"; "company_count_rank";
                 "employee_count_rank"; "growth_rate_rank"])
          (comparison out)
    | Err _ => True
    end.
Proof.
  intros api region_codes. rewrite compare_regions_result.
  destruct (5 <? length region_codes)%nat; [done |].
  destruct (_ <$> fetched api region_codes) as [|row rows] eqn:E; [done |].
  apply (rank_rows_keys (row :: rows)
           ["region_code"; "name"; "health_score"; "company_count";
            "employee_count"; "growth_rate"]).
  rewrite <- E. apply Forall_fmap, Forall_forall. intros code _ key.
  apply new_row_keys.
Qed.

Lemma lookup_total_num (h : store) (key : string) (r : nat) :
  as_num ((h !!! r) !! key) = as_num (field h key r).
Proof.
  destruct (decide (r < length h)%nat) as [Hr | Hr].
  - by rewrite lookup_total_field.
  - unfold field. rewrite list_lookup_total_alt.
    by rewrite lookup_ge_None_2 by lia.
Qed.

(** X4.  A returned comparison is in descending order of health score, its
    count is its length, and [best_health] is the name held by its first
    record. *)
Theorem comparison_descending :
  ∀ (api : api_t) (region_codes : list string),
    match (run api (compare_regions region_codes)).1 with
    | Ok out =>
        StronglySorted
          (λ a b, (as_num (b !! "health_score")
                   <= as_num (a !! "health_score"))%Q)
          (comparison out) ∧
        count out = length (comparison out) ∧
        best_health out = head (comparison out) ≫= (.!! "name")
    | Err _ => True
    end.
Proof.
  intros api region_codes. rewrite compare_regions_result.
  destruct (5 <? length region_codes)%nat; [done |].
  destruct (_ <$> fetched api region_codes) as [|row rows']; [done |].
  generalize (row :: rows'). clear. intros rows.
  destruct (rank_rows_spec rows) as (Hc & Hn & _).
  destruct (rank_all_spec rows) as (Hr & Hl & _ & _ & Hk).
  split; [| split].
  - rewrite Hc.
    eapply StronglySorted_fmap;
      [| apply (sorted_desc_sorted (metric_key rows "health_score"))].
    intros x y Hxy. rewrite !lookup_total_num.
    rewrite !Hk.
    + exact Hxy.
    + unfold rank_keys, metrics. cbn. rewrite !not_elem_of_cons.
      repeat split; try discriminate. apply not_elem_of_nil.
    + unfold rank_keys, metrics. cbn. rewrite !not_elem_of_cons.
      repeat split; try discriminate. apply not_elem_of_nil.
  - rewrite Hn, Hc, length_fmap. unfold order_of.
    by rewrite sorted_desc_length, length_seq.
  - rewrite Hc. unfold rank_rows.
    destruct (rank_all (seq 0 (length rows)) rows) as [ranked h] eqn:Hra.
    cbn [fst snd best_health] in *. subst ranked.
    destruct (order_of rows "health_score") as [|r order] eqn:Ho; [done |].
    simpl. symmetry. apply lookup_total_field. rewrite Hl.
    apply (order_of_lt rows "health_score" 0). by rewrite Ho.
Qed.

End CompareMore.

(** ** [find_industry_cluster]: what is returned *)

Section ClusterMore.
Import Cluster.

Lemma cluster_of_sound (kw : string) (min_companies : Z) (r : region)
    (c : cluster) :
  cluster_of kw min_companies r = Some c →
  str_contains kw (industry_name c) = true ∧
  (inject_Z min_companies <= company_count c)%Q.
Proof.
  intros Hc. apply cluster_of_Some in Hc as (m & Hm & _ & Hle & ->).
  apply first_match_Some in Hm as (pre & post & _ & Hhit & _). by split.
Qed.

(** X5.  [find_industry_cluster] requests the region list once.  When the
    answer is not 200 it returns the unavailable error; otherwise every
    cluster it returns comes from a fetched region, has an industry name
    containing the keyword and a company count of at least
    [min_companies]. *)
Theorem returned_clusters_qualify :
  ∀ (api : api_t) (kw : string) (min_companies top_n : Z),
    match run api (find_industry_cluster kw min_companies top_n) with
    | (Ok out, trace) =>
        status_code (api _ (ListRegions 250)) = 200 ∧
        trace = ["/api/regions"] ∧
        industry out = kw ∧
        Forall (λ c,
          str_contains kw (industry_name c) = true ∧
          (inject_Z min_companies <= company_count c)%Q ∧
          ∃ r, r ∈ body (api _ (ListRegions 250)) ∧
               cluster_of kw min_companies r = Some c)
          (top_clusters out)
    | (Err e, trace) =>
        status_code (api _ (ListRegions 250)) ≠ 200 ∧
        trace = ["/api/regions"] ∧
        e = RegionsUnavailable
    end.
Proof.
  intros api kw min_companies top_n. unfold find_industry_cluster. simpl.
  destruct (Z.eqb_spec (status_code (api _ (ListRegions 250))) 200)
    as [Heq | Hne]; simpl; [| done].
  split; [done |]. split; [done |]. split; [done |].
  unfold find_clusters. cbn [top_clusters].
  set (regions := body (api _ (ListRegions 250))).
  set (sorted := sorted_desc company_count _).
  destruct (slice_to_prefix top_n sorted) as [rest Hrest].
  apply Forall_forall. intros c Hc.
  assert (Hin : c ∈ omap (cluster_of kw min_companies) regions).
  { rewrite <- (sorted_desc_perm company_count). fold sorted.
    rewrite Hrest. apply elem_of_app. by left. }
  apply list_elem_of_omap in Hin as (r & Hr & Hcl).
  destruct (cluster_of_sound _ _ _ _ Hcl) as [Hs Hm].
  split; [done |]. split; [done |]. by exists r.
Qed.

(** X6.  The returned list is a prefix of the stable descending sort of the
    retained clusters: with the clusters left out it is a rearrangement of
    them in descending order of company count, clusters with equal counts
    standing in the order their regions were scanned; nothing is left out
    when [top_n] is at least the number of clusters. *)
Theorem top_clusters_stable_prefix :
  ∀ (regions : list region) (kw : string) (min_companies top_n : Z),
  ∃ rest,
    (top_clusters (find_clusters regions kw min_companies top_n) ++ rest)%list
      ≡ₚ omap (cluster_of kw min_companies) regions ∧
    StronglySorted (λ a b, (company_count b <= company_count a)%Q)
      (top_clusters (find_clusters regions kw min_companies top_n)
       ++ rest)%list ∧
    (∀ q,
      filter (λ c, Qeq_bool (company_count c) q = true)
        (top_clusters (find_clusters regions kw min_companies top_n)
         ++ rest)%list
      = filter (λ c, Qeq_bool (company_count c) q = true)
          (omap (cluster_of kw min_companies) regions)) ∧
    (Z.of_nat (total_clusters (find_clusters regions kw min_companies top_n))
       ≤ top_n → rest = []).
Proof.
  intros regions kw min_companies top_n. unfold find_clusters.
  cbn [top_clusters total_clusters].
  set (clusters := omap (cluster_of kw min_companies) regions).
  destruct (slice_to_prefix top_n (sorted_desc company_count clusters))
    as [rest Hrest].
  exists rest. rewrite <- Hrest.
  split; [apply sorted_desc_perm |].
  split; [apply (sorted_desc_sorted company_count) |].
  split; [intros q; apply sorted_desc_filter |].
  intros Hn. apply (f_equal length) in Hrest.
  rewrite length_app, slice_to_length_nonneg in Hrest by lia.
  destruct rest; [done |]. simpl in Hrest. lia.
Qed.

Lemma cluster_of_raise (kw : string) (m1 m2 : Z) (r : region) :
  m1 ≤ m2 →
  cluster_of kw m2 r =
    c ← cluster_of kw m1 r;
    if Qgeb (company_count c) (inject_Z m2) then Some c else None.
Proof.
  intros Hle. unfold cluster_of.
  destruct (first_match kw (get (reg_top_industries r) [])) as [m|]; [| done].
  destruct (truthy m); simpl; [| done].
  destruct (Qgeb (get (ind_count m) 0%Q) (inject_Z m2)) eqn:H2.
  - apply Qgeb_ge in H2.
    assert (H1 : Qgeb (get (ind_count m) 0%Q) (inject_Z m1) = true).
    { apply Qgeb_ge. rewrite Zle_Qle in Hle. lra. }
    rewrite H1. simpl. apply Qgeb_ge in H2. by rewrite H2.
  - destruct (Qgeb (get (ind_count m) 0%Q) (inject_Z m1)); simpl; [| done].
    by rewrite H2.
Qed.

(** X7.  Raising the minimum only removes clusters: the clusters retained
    under a larger [min_companies] are those retained under the smaller one
    whose count reaches the larger, in the same scan order, so that
    [total_clusters] does not grow. *)
Theorem raising_minimum_filters (regions : list region) (kw : string)
    (m1 m2 n1 n2 : Z) :
  m1 ≤ m2 →
  omap (cluster_of kw m2) regions
    = filter (λ c, Qgeb (company_count c) (inject_Z m2) = true)
        (omap (cluster_of kw m1) regions) ∧
  (total_clusters (find_clusters regions kw m2 n2)
     ≤ total_clusters (find_clusters regions kw m1 n1))%nat.
Proof.
  intros Hle.
  assert (Heq : omap (cluster_of kw m2) regions
    = filter (λ c, Qgeb (company_count c) (inject_Z m2) = true)
        (omap (cluster_of kw m1) regions)).
  { induction regions as [|r regions IH]; [done |]. csimpl.
    rewrite (cluster_of_raise kw m1 m2 r Hle).
    destruct (cluster_of kw m1 r) as [c|]; csimpl; [| done].
    rewrite filter_cons.
    destruct (Qgeb (company_count c) (inject_Z m2)) eqn:Hc.
    - rewrite decide_True by done. by rewrite IH.
    - by rewrite decide_False by done. }
  split; [done |]. unfold find_clusters. cbn [total_clusters].
  rewrite !sorted_desc_length, Heq. apply length_filter.
Qed.

(** X7 on one region, the minimum raised from 5 to 10. *)
Lemma raising_minimum_filters_witness :
  omap (cluster_of "반도체" 10)
    [Region (Some "41590") None None None None None None
       (Some [Industry (Some "반도체") (Some 8%Q)])]
    = filter (λ c, Qgeb (company_count c) (inject_Z 10) = true)
        (omap (cluster_of "반도체" 5)
           [Region (Some "41590") None None None None None None
              (Some [Industry (Some "반도체") (Some 8%Q)])]) ∧
  (total_clusters
     (find_clusters
        [Region (Some "41590") None None None None None None
           (Some [Industry (Some "반도체") (Some 8%Q)])] "반도체" 10 10)
   ≤ total_clusters
       (find_clusters
          [Region (Some "41590") None None None None None None
             (Some [Industry (Some "반도체") (Some 8%Q)])] "반도체" 5 10))%nat.
Proof.
  apply (raising_minimum_filters
           [Region (Some "41590") None None None None None None
              (Some [Industry (Some "반도체") (Some 8%Q)])]
           "반도체" 5 10 10 10).
  lia.
Defined.

Lemma str_contains_empty (s : string) : str_contains "" s = true.
Proof. by destruct s. Qed.

(** X8.  An empty keyword is contained in every name, even an absent one:
    the match of a region is then the first entry of its list, and a region
    is retained exactly when that entry is a non-empty record (it holds a
    name, a count or any other key) whose count reaches [min_companies].
    So an entry holding only another key is retained under a minimum of 0,
    with an empty name and the count 0, and an entry with no key is not. *)
Theorem empty_keyword_takes_first_entry :
  (∀ s : string, str_contains "" s = true) ∧
  (∀ inds : list industry_entry, first_match "" inds = head inds) ∧
  (∀ m : industry_entry,
    truthy m = true ↔
    is_Some (ind_name m) ∨ is_Some (ind_count m) ∨ ind_other m = true) ∧
  (∀ (min_companies : Z) (r : region),
    is_Some (cluster_of "" min_companies r) ↔
    ∃ m, head (get (reg_top_industries r) []) = Some m ∧
         truthy m = true ∧
         (inject_Z min_companies <= get (ind_count m) 0)%Q) ∧
  (∃ c,
    cluster_of "" 0
      (Region (Some "41590") None None None None None None
         (Some [IndustryEntry None None true])) = Some c ∧
    industry_name c = "" ∧ company_count c = 0%Q) ∧
  cluster_of "" 0
    (Region (Some "41590") None None None None None None
       (Some [IndustryEntry None None false])) = None.
Proof.
  assert (Hfirst : ∀ inds : list industry_entry,
            first_match "" inds = head inds).
  { intros [|ind inds]; [done |]. simpl. by rewrite str_contains_empty. }
  split; [exact str_contains_empty |]. split; [exact Hfirst |].
  split.
  { intros [[name|] [count|] other]; unfold truthy; simpl.
    - split; [left; by eexists | done].
    - split; [left; by eexists | done].
    - split; [right; left; by eexists | done].
    - split; [by right; right |].
      intros [[? H] | [[? H] | H]]; done. }
  split; [| split; [by eexists | done]].
  intros min_companies r. split.
  - intros [c Hc]. apply cluster_of_Some in Hc as (m & Hm & Ht & Hle & _).
    rewrite Hfirst in Hm. by exists m.
  - intros (m & Hm & Ht & Hle). eexists. apply cluster_of_Some.
    exists m. rewrite Hfirst. by repeat split.
Qed.

End ClusterMore.

(** ** [get_company_360]: the cleaned key and the outcomes *)

Section CompanyMore.
Import Company.

Lemma clean_no_hyphen (s : string) :
  "-"%char ∉ list_ascii_of_string (clean s).
Proof.
  rewrite clean_spec. intros H. apply list_elem_of_filter in H as [H _].
  by apply H.
Qed.

Lemma clean_fixed (s : string) :
  "-"%char ∉ list_ascii_of_string s → clean s = s.
Proof.
  unfold clean. induction s as [|c s IH]; simpl; [done |].
  intros H. apply not_elem_of_cons in H as [Hc Hs].
  destruct (Ascii.eqb_spec c "-") as [-> | _]; [done |]. by rewrite IH.
Qed.

Lemma clean_length (s : string) :
  py_len s =
    (py_len (clean s)
     + length (filter (λ c, c = "-"%char) (list_ascii_of_string s)))%nat.
Proof.
  unfold clean. induction s as [|c s IH]; simpl; [done |].
  rewrite filter_cons. destruct (Ascii.eqb_spec c "-") as [-> | Hne].
  - rewrite decide_True by done.
    change (is_continuation "-") with false.
    change ("" ++ replace_char "-" "" s) with (replace_char "-" "" s).
    cbn [length]. lia.
  - rewrite decide_False by done. simpl.
    destruct (is_continuation c); lia.
Qed.

(** X9.  Cleaning a key removes every hyphen and nothing else: the result
    holds no hyphen, a key without hyphens is unchanged, cleaning twice is
    cleaning once, and the length of the key is that of the cleaned key
    plus the number of its hyphens. *)
Theorem clean_removes_hyphens :
  ∀ s : string,
    ("-"%char ∉ list_ascii_of_string (clean s)) ∧
    ("-"%char ∉ list_ascii_of_string s → clean s = s) ∧
    clean (clean s) = clean s ∧
    py_len s =
      (py_len (clean s)
       + length (filter (λ c, c = "-"%char) (list_ascii_of_string s)))%nat.
Proof.
  intros s. split; [apply clean_no_hyphen |].
  split; [apply clean_fixed |].
  split; [apply clean_fixed, clean_no_hyphen | apply clean_length].
Qed.

(** X10.  [get_company_360] returns the not-found error exactly when the
    cleaned key has 10 characters and the fetch is answered with status
    404.  Whenever it returns a profile, the cleaned key has 10
    characters, the fetch was answered with another status, and the
    profile carries the cleaned key, without hyphen.  When the key is valid
    and the fetch raises, the tool raises after that one request.  Cleaning
    the key beforehand changes nothing. *)
Theorem company_lookup_outcomes :
  ∀ (xapi : xapi_t) (biz : string),
    ((run_x xapi (get_company_360 biz)).1
       = Some (Err (CompanyNotFound (clean biz))) ↔
     py_len (clean biz) = 10%nat ∧
     ∃ resp, xapi _ (GetCompany (clean biz)) = Some resp ∧
             status_code resp = 404) ∧
    (∀ p, (run_x xapi (get_company_360 biz)).1 = Some (Ok p) →
       py_len (clean biz) = 10%nat ∧
       (∃ resp, xapi _ (GetCompany (clean biz)) = Some resp ∧
                status_code resp ≠ 404) ∧
       biz_no p = clean biz ∧
       py_len (biz_no p) = 10%nat ∧
       ("-"%char ∉ list_ascii_of_string (biz_no p))) ∧
    (py_len (clean biz) = 10%nat →
     xapi _ (GetCompany (clean biz)) = None →
     run_x xapi (get_company_360 biz)
       = (None, ["/api/companies/" ++ clean biz])) ∧
    get_company_360 (clean biz) = get_company_360 biz.
Proof.
  intros xapi biz.
  assert (Hidem : get_company_360 (clean biz) = get_company_360 biz).
  { unfold get_company_360. by rewrite (clean_fixed _ (clean_no_hyphen biz)). }
  assert (Hcases :
    (py_len (clean biz) ≠ 10%nat ∧
     run_x xapi (get_company_360 biz) = (Some (Err BadBizNo), [])) ∨
    (py_len (clean biz) = 10%nat ∧
     xapi _ (GetCompany (clean biz)) = None ∧
     run_x xapi (get_company_360 biz)
       = (None, ["/api/companies/" ++ clean biz])) ∨
    (py_len (clean biz) = 10%nat ∧
     ∃ resp, xapi _ (GetCompany (clean biz)) = Some resp ∧
       ((status_code resp = 404 ∧
         (run_x xapi (get_company_360 biz)).1
           = Some (Err (CompanyNotFound (clean biz)))) ∨
        (status_code resp ≠ 404 ∧
         ∃ p, (run_x xapi (get_company_360 biz)).1 = Some (Ok p) ∧
              biz_no p = clean biz)))).
  { unfold get_company_360.
    destruct (Nat.eqb_spec (py_len (clean biz)) 10) as [Hlen | Hlen]; simpl;
      [| by left].
    right. destruct (xapi _ (GetCompany (clean biz))) as [resp|]; simpl;
      [right | by left].
    split; [done |]. exists resp. split; [done |].
    destruct (Z.eqb_spec (status_code resp) 404) as [H404 | H404]; simpl;
      [by left | right].
    split; [done |]. by eexists. }
  split; [| split; [| split; [| exact Hidem]]].
  - destruct Hcases
      as [[Hlen ->] | [(Hlen & Hx & ->)
                      | (Hlen & resp & Hx & [[H404 ->] | (H404 & p & -> & _)])]].
    + split; [intros H; discriminate | by intros [H _]].
    + split; [intros H; discriminate |].
      intros (_ & resp & H & _). congruence.
    + split; [intros _; split; [done | by exists resp] | done].
    + split; [intros H; discriminate |].
      intros (_ & resp' & H & H'). congruence.
  - intros p Hp.
    destruct Hcases
      as [[Hlen Hr] | [(Hlen & Hx & Hr)
                      | (Hlen & resp & Hx & [[H404 Hr] | (H404 & p' & Hr & Hb)])]];
      rewrite Hr in Hp; try discriminate.
    injection Hp as <-. split; [done |]. split; [by exists resp |].
    rewrite Hb. split; [done |]. split; [done |]. apply clean_no_hyphen.
  - intros Hlen Hnone.
    destruct Hcases
      as [[Hlen' _] | [(_ & _ & Hr) | (_ & resp & Hx & _)]];
      [done | done | congruence].
Qed.

End CompanyMore.

(** ** [predict_complex_risk]: rates, scores and the report *)

Section RiskMore.
Import Risk.

Lemma tenant_of_nonzero (cx : complex) :
  ¬ (get (cx_tenant_count cx) 0 == 0)%Q →
  tenant_of cx = get (cx_tenant_count cx) 0%Q.
Proof.
  intros H. unfold tenant_of, num_or.
  destruct (Qeq_bool (get (cx_tenant_count cx) 0%Q) 0) eqn:E; [| done].
  by apply Qeq_bool_iff in E.
Qed.

(** X11.  The divisor is floored only at zero.  A tenant count of 0 is
    reported as 1; a positive one is reported as it is; a negative one is
    kept and reported as it is too, and then the operating rate is 0, the
    low operating rate factor is raised with the figure 0 and the score is
    at least 30. *)
Theorem operating_rate_by_tenant_sign :
  ∀ cx : complex, ∃ e,
    assess cx = Some e ∧
    ((get (cx_tenant_count cx) 0 < 0)%Q →
       tenant_count (metrics e) = get (cx_tenant_count cx) 0%Q ∧
       operating_rate (metrics e) = 0%Q ∧
       Factor "낮은 가동률" 0 ∈ factors e ∧
       30 ≤ risk_score e) ∧
    ((get (cx_tenant_count cx) 0 == 0)%Q →
       tenant_count (metrics e) = 1%Q) ∧
    ((0 < get (cx_tenant_count cx) 0)%Q →
       tenant_count (metrics e) = get (cx_tenant_count cx) 0%Q).
Proof.
  intros cx.
  destruct (assess_spec cx) as (e & op & He & Hop & Hs & Hf & _ & Htc & Hr).
  exists e. split; [done |]. rewrite op_rate_of_spec in Hop. split; [| split].
  - intros Hneg.
    rewrite tenant_of_nonzero in * by lra.
    assert (Hcmp : Qltb 0 (get (cx_tenant_count cx) 0%Q) = false)
      by (apply Qltb_ge; lra).
    rewrite Hcmp in Hop. injection Hop as <-.
    split; [done |]. split; [by rewrite Hr |]. split.
    + rewrite Hf. apply elem_of_app. right. apply elem_of_app. left.
      apply list_elem_of_here.
    + rewrite Hs.
      destruct (points_range (get (cx_occupancy_rate cx) 0%Q)) as (Ho & _ & _).
      destruct (points_range (get (cx_employment cx) 0%Q)) as (_ & _ & Hm).
      change (operating_points 0) with 30. lia.
  - intros Hzero. by rewrite Htc, tenant_of_zero.
  - intros Hpos. by rewrite Htc, tenant_of_nonzero by lra.
Qed.

(** What a rule leaves when run on its own: its points and its factor. *)
Lemma rule_outcomes (x : Q) :
  (∃ f, occupancy_rule x (0, []) = (30, [f]) ∨
        occupancy_rule x (0, []) = (15, [f]) ∨
        occupancy_rule x (0, []) = (0, [])) ∧
  (∃ f, operating_rule x (0, []) = (30, [f]) ∨
        operating_rule x (0, []) = (15, [f]) ∨
        operating_rule x (0, []) = (0, [])) ∧
  (∃ f, employment_rule x (0, []) = (20, [f]) ∨
        employment_rule x (0, []) = (0, [])).
Proof.
  unfold occupancy_rule, operating_rule, employment_rule.
  repeat split; repeat case_match; eexists; simpl; eauto.
  Unshelve. all: exact (Factor "" 0).
Qed.

(** X12.  Score and factors go together: the score is one of ten values,
    it is 0 exactly when no factor is raised, each factor stands for 15 to
    30 points, and the level is "낮음" exactly up to 20 and "보통" exactly
    from 30 to 45. *)
Theorem score_and_factors_agree :
  ∀ cx : complex, ∃ e,
    assess cx = Some e ∧
    risk_score e ∈ [0; 15; 20; 30; 35; 45; 50; 60; 65; 80] ∧
    (risk_score e = 0 ↔ factors e = []) ∧
    15 * Z.of_nat (length (factors e)) ≤ risk_score e
      ≤ 30 * Z.of_nat (length (factors e)) ∧
    (risk_level e = "낮음" ↔ risk_score e ≤ 20) ∧
    (risk_level e = "보통" ↔ 30 ≤ risk_score e ≤ 45) ∧
    (risk_level e = "높음" ↔ 50 ≤ risk_score e).
Proof.
  intros cx.
  destruct (assess_spec cx) as (e & op & He & _ & Hs & Hf & Hl & _).
  exists e. split; [done |].
  unfold occupancy_points, operating_points, employment_points in Hs.
  destruct (rule_outcomes (get (cx_occupancy_rate cx) 0%Q))
    as ([fo Ho] & _ & _).
  destruct (rule_outcomes op) as (_ & [fp Hp] & _).
  destruct (rule_outcomes (get (cx_employment cx) 0%Q)) as (_ & _ & [fm Hm]).
  destruct (level_of_thresholds (risk_score e)) as (Lh & Lm & Ll).
  rewrite <- Hl in Lh, Lm, Ll.
  destruct Ho as [Ho | [Ho | Ho]]; destruct Hp as [Hp | [Hp | Hp]];
    destruct Hm as [Hm | Hm];
    rewrite Ho, Hp, Hm in Hs, Hf; simpl in Hs, Hf;
    rewrite Hs in *; rewrite Hf;
    (split; [rewrite !elem_of_cons; lia |]);
    (split; [split; intros H; (discriminate || lia || done) |]);
    (split; [simpl; lia |]);
    (split; [rewrite Ll; lia |]);
    (split; [rewrite Lm; lia |]);
    rewrite Lh; lia.
Qed.

Lemma filter_ext_elem {A} (P1 P2 : A → Prop)
    `{!∀ x, Decision (P1 x), !∀ x, Decision (P2 x)} (l : list A) :
  (∀ x, x ∈ l → P1 x ↔ P2 x) → filter P1 l = filter P2 l.
Proof.
  induction l as [|x l IH]; intros Hext; [done |].
  rewrite !filter_cons.
  rewrite IH by (intros y Hy; apply Hext; by right).
  destruct (decide (P1 x)) as [H1 | H1].
  - rewrite decide_True; [done |]. apply Hext; [left | done].
  - rewrite decide_False; [done |]. intros H2. apply H1, Hext; [left | done].
Qed.

Lemma filter_all {A} (P : A → Prop) `{!∀ x, Decision (P x)} (l : list A) :
  Forall P l → filter P l = l.
Proof.
  induction 1 as [|x l Hx _ IH]; [done |].
  by rewrite filter_cons, decide_True, IH.
Qed.

Lemma filter_none {A} (P : A → Prop) `{!∀ x, Decision (P x)} (l : list A) :
  Forall (λ x, ¬ P x) l → filter P l = [].
Proof.
  induction 1 as [|x l Hx _ IH]; [done |].
  by rewrite filter_cons, decide_False, IH.
Qed.

(** Every entry [assess] builds has the level of its score. *)
Lemma assessed_level (complexes : list complex) (all : list entry) :
  Forall2 (λ cx e, assess cx = Some e) complexes all →
  Forall (λ e, risk_level e = "높음" ↔
               Qle_bool 50 (inject_Z (risk_score e)) = true) all.
Proof.
  induction 1 as [|cx e complexes all He _ IH]; constructor; [| done].
  destruct (assess_spec cx) as (e' & _ & He' & _ & _ & _ & Hl & _).
  rewrite He in He'. injection He' as <-. rewrite Hl.
  destruct (level_of_thresholds (risk_score e)) as (Lh & _ & _).
  rewrite Lh, Qle_bool_iff, (Zle_Qle 50). done.
Qed.

(** X13.  The complexes at high risk are listed first: when at most 20 of
    them are at high risk the returned list holds them all, and when at
    least 20 are, every returned entry is at high risk. *)
Theorem high_risk_listed_first :
  ∀ complexes : list complex, ∃ rep,
    assess_risk complexes = Some rep ∧
    ((high_risk_count rep ≤ 20)%nat →
       length (filter (λ e, risk_level e = "높음") (results rep))
         = high_risk_count rep) ∧
    ((20 ≤ high_risk_count rep)%nat →
       Forall (λ e, risk_level e = "높음") (results rep)).
Proof.
  intros complexes.
  destruct (assess_all_total complexes) as [all Hall].
  pose proof (proj1 (mapM_Some _ _ _) Hall) as Hf2.
  pose proof (assessed_level _ _ Hf2) as Hlev.
  unfold assess_risk. rewrite Hall. cbn [mbind option_bind].
  set (key := λ r : entry, inject_Z (risk_score r)).
  set (sorted := sorted_desc key all).
  eexists. split; [reflexivity |].
  cbn [results high_risk_count].
  assert (Hsl : Forall (λ e, risk_level e = "높음" ↔
                             Qle_bool 50 (key e) = true) sorted).
  { unfold sorted. by rewrite sorted_desc_perm. }
  rewrite Forall_forall in Hsl.
  pose proof (desc_threshold_split key 50 sorted
                (sorted_desc_sorted key all)) as Hsplit.
  set (hi := filter (λ a, Qle_bool 50 (key a) = true) sorted) in *.
  set (lo := filter (λ a, ¬ Qle_bool 50 (key a) = true) sorted) in *.
  assert (Hcount : length (filter (λ r, is_high r = true) sorted) = length hi).
  { unfold hi. f_equal. apply filter_ext_elem. intros e He.
    rewrite is_high_level. by apply Hsl. }
  rewrite Hcount.
  assert (Hhi : Forall (λ e, risk_level e = "높음") hi).
  { apply Forall_forall. intros e He.
    apply list_elem_of_filter in He as [Hq He]. by apply Hsl. }
  assert (Hlo : Forall (λ e, ¬ risk_level e = "높음") lo).
  { apply Forall_forall. intros e He.
    apply list_elem_of_filter in He as [Hq He]. intros Hh. apply Hq.
    by apply Hsl. }
  unfold slice_to. change (0 <=? 20) with true. cbn iota.
  change (Z.to_nat 20) with 20%nat. rewrite Hsplit. split.
  - intros Hle. rewrite take_app, (take_ge hi) by lia.
    rewrite filter_app, length_app.
    rewrite (filter_all _ hi) by done.
    assert (Hnone : filter (λ e, risk_level e = "높음")
                      (take (20 - length hi) lo) = []).
    { apply filter_none. by apply Forall_take. }
    rewrite Hnone. simpl. lia.
  - intros Hge. rewrite take_app_le by lia. by apply Forall_take.
Qed.

(** X14.  The report keeps ties in input order: the returned list, followed
    by the entries left out, is in descending order of score, and for each
    score the entries with that score stand there as their complexes stood
    in the input. *)
Theorem risk_results_stable :
  ∀ complexes : list complex, ∃ rep all rest,
    assess_risk complexes = Some rep ∧
    Forall2 (λ cx e, assess cx = Some e) complexes all ∧
    StronglySorted (λ a b, risk_score b ≤ risk_score a)
      (results rep ++ rest)%list ∧
    (∀ s : Z,
      filter (λ e, risk_score e = s) (results rep ++ rest)%list
        = filter (λ e, risk_score e = s) all).
Proof.
  intros complexes.
  destruct (assess_all_total complexes) as [all Hall].
  pose proof (proj1 (mapM_Some _ _ _) Hall) as Hf2.
  unfold assess_risk. rewrite Hall. cbn [mbind option_bind].
  set (key := λ r : entry, inject_Z (risk_score r)).
  destruct (slice_to_prefix 20 (sorted_desc key all)) as [rest Hrest].
  eexists _, all, rest. split; [reflexivity |]. cbn [results].
  split; [done |]. rewrite <- Hrest. split.
  { eapply StronglySorted_weaken; [| apply (sorted_desc_sorted key)].
    intros a b. unfold desc, key. by rewrite <- Zle_Qle. }
  intros s.
  assert (Hiff : ∀ e : entry,
            risk_score e = s ↔ Qeq_bool (key e) (inject_Z s) = true).
  { intros e. unfold key. by rewrite Qeq_bool_iff, inject_Z_injective. }
  rewrite !(list_filter_iff _ _ _ Hiff). apply sorted_desc_filter.
Qed.

(** X15.  With a complex code the tool requests that complex alone, never
    the list, whatever the province: it returns the not-found error exactly
    when the fetch is answered with 404, and a report it returns is the
    report on that one complex, fetched with another status.  Without a
    code it requests the list once, with the province as filter unless it
    is empty: it returns the unavailable error exactly when the fetch is
    answered with a status other than 200, and an answer of 200 with an
    empty list gives a report of zero complexes, not an error. *)
Theorem complex_risk_requests :
  ∀ (xapi : xapi_t) (code province : string),
    (code ≠ "" →
       (∃ k, predict_complex_risk code province = Await (GetComplex code) k) ∧
       (run_x xapi (predict_complex_risk code province)).2
         = ["/api/complexes/" ++ code] ∧
       ((run_x xapi (predict_complex_risk code province)).1
          = Some (Some (Err (ComplexNotFound code))) ↔
        ∃ resp, xapi _ (GetComplex code) = Some resp ∧
                status_code resp = 404) ∧
       (∀ rep,
          (run_x xapi (predict_complex_risk code province)).1
            = Some (Some (Ok rep)) →
          ∃ resp,
            xapi _ (GetComplex code) = Some resp ∧
            status_code resp ≠ 404 ∧
            assess_risk [body resp] = Some rep ∧
            total_analyzed rep = 1%nat ∧
            length (results rep) = 1%nat)) ∧
    (∃ k, predict_complex_risk "" province
            = Await (ListComplexes
                       (if (province =? "")%string then None
                        else Some province)) k) ∧
    (run_x xapi (predict_complex_risk "" province)).2 = ["/api/complexes"] ∧
    (∀ params : option string,
       params = (if (province =? "")%string then None else Some province) →
       ((run_x xapi (predict_complex_risk "" province)).1
          = Some (Some (Err ComplexesUnavailable)) ↔
        ∃ resp, xapi _ (ListComplexes params) = Some resp ∧
                status_code resp ≠ 200) ∧
       (∀ resp,
          xapi _ (ListComplexes params) = Some resp →
          status_code resp = 200 →
          body resp = [] →
          (run_x xapi (predict_complex_risk "" province)).1
            = Some (Some (Ok {| total_analyzed := 0;
                                high_risk_count := 0;
                                results := [];
                                summary := "총 0개 단지 분석, 0개 고위험" |})))).
Proof.
  intros xapi code province. split; [| split; [| split]].
  - intros Hcode. unfold predict_complex_risk.
    rewrite (proj2 (String.eqb_neq code "") Hcode). cbn [negb].
    split; [by eexists |]. simpl.
    destruct (xapi _ (GetComplex code)) as [resp|]; simpl.
    2: { split; [done |]. split.
         - split; [intros H; discriminate | by intros (resp & H & _)].
         - intros rep H. discriminate. }
    destruct (Z.eqb_spec (status_code resp) 404) as [H404 | H404]; simpl.
    + split; [done |]. split; [split; [by eexists | done] |].
      intros rep H. discriminate.
    + split; [done |].
      destruct (assess_risk_spec [body resp])
        as (rep & all & rest & Hrep & _ & _ & _ & Hlen & Htot & _).
      rewrite Hrep. simpl. split.
      * split; [intros H; discriminate |].
        intros (resp' & [= <-] & H). done.
      * intros rep' [= <-]. exists resp. by repeat split.
  - by eexists.
  - unfold predict_complex_risk. simpl.
    destruct (xapi _ (ListComplexes _)) as [resp|]; simpl; [| done].
    by destruct (negb (status_code resp =? 200)).
  - intros params ->. unfold predict_complex_risk. simpl.
    destruct (xapi _ (ListComplexes _)) as [resp|]; simpl.
    2: { split; [| intros resp H; discriminate].
         split; [intros H; discriminate | by intros (resp & H & _)]. }
    destruct (Z.eqb_spec (status_code resp) 200) as [H200 | H200]; simpl.
    + split.
      * destruct (assess_risk_spec (body resp)) as (rep & _ & _ & -> & _).
        simpl. split; [intros H; discriminate |].
        intros (resp' & [= <-] & H). done.
      * intros resp' [= <-] _ ->. reflexivity.
    + split; [split; [by eexists | done] |].
      intros resp' [= <-] H. done.
Qed.

(** X16.  Better figures never add risk: the points of each rule do not
    grow when its figure grows. *)
Theorem better_figures_never_add_risk :
  (∀ x y : Q, (x <= y)%Q → occupancy_points y ≤ occupancy_points x) ∧
  (∀ x y : Q, (x <= y)%Q → operating_points y ≤ operating_points x) ∧
  (∀ x y : Q, (x <= y)%Q → employment_points y ≤ employment_points x).
Proof.
  unfold occupancy_points, operating_points, employment_points,
    occupancy_rule, operating_rule, employment_rule.
  repeat split; intros x y Hxy.
  - case_Qltb x 70%Q; case_Qltb x 85%Q; case_Qltb y 70%Q; case_Qltb y 85%Q;
      simpl; lia || lra.
  - case_Qltb x 60%Q; case_Qltb x 80%Q; case_Qltb y 60%Q; case_Qltb y 80%Q;
      simpl; lia || lra.
  - case_Qltb x 1000%Q; case_Qltb y 1000%Q; simpl; lia || lra.
Qed.

End RiskMore.
